(** * The coin model of the silent-pay wallet

    A shallow embedding of the [Coin] class (the unspent-output value
    object): its JSON codec ([toJSON], [fromJSON]), the conversion to a
    signable transaction input ([toInput]) and the size and fee estimates
    ([estimateSpendingSize], [estimateSpendingFee]).

    Conventions.
    - A JavaScript string is the list of its UTF-16 code units ([jsstring]).
    - A [Buffer] is the list of its bytes.
    - A JavaScript number that holds an integer is a [Z]; the fee rate, the
      one number of the class that need not be an integer, is a double
      ([float], the binary64 numbers of IEEE 754).
    - A call that can throw returns a [result]: [Ret v] or [Throw e]. *)

From Bignums Require Import BigZ.BigZ.
From Stdlib Require Import Strings.String Strings.Ascii Strings.Byte.
From Stdlib Require Import ZArith NArith List Lia Bool Floats.
Import ListNotations.

Local Open Scope Z_scope.

(** ** Strings, buffers, exceptions *)

Definition jsstring := list N.

(** A Rocq string literal as a JavaScript string. *)
Definition str (s : string) : jsstring :=
  map N_of_ascii (list_ascii_of_string s).

Definition Buffer := list byte.

(** The exceptions the class can raise, named by where they come from. *)
Inductive exn : Type :=
| SyntaxError                 (* JSON.parse on a malformed text *)
| ExpectedPoint               (* tiny-secp256k1: Error('Expected Point') *)
| ExpectedTweak               (* tiny-secp256k1: Error('Expected Tweak') *)
| DestructureNull             (* TypeError: destructuring a null result *)
| InvalidPrefix               (* bitcoinjs-lib: '<address> has an invalid prefix' *)
| NoMatchingScript.           (* bitcoinjs-lib: '<address> has no matching Script' *)

Inductive result (A : Type) : Type :=
| Ret (a : A)
| Throw (e : exn).
Arguments Ret {A} a.
Arguments Throw {A} e.

Definition bind {A B : Type} (r : result A) (k : A -> result B) : result B :=
  match r with
  | Ret a => k a
  | Throw e => Throw e
  end.

Notation "x <- r ;; k" := (bind r (fun x => k))
  (at level 61, r at next level, right associativity).

(** The error taxonomy of the specification, read on the exceptions of the
    code.  The code has no error classes of its own: a malformed record is
    the parser's [SyntaxError]; a rejected spend key is the curve library's
    'Expected Point'; a rejected tweak is the library's 'Expected Tweak', or,
    when the sum is the point at infinity and the library returns null, the
    [TypeError] of destructuring that null; a rejected address is one of the
    two errors of the address decoder. *)
Inductive error_class : Type :=
| ParseError
| InvalidTweakError
| InvalidPublicKeyError
| UnsupportedAddressError.

Definition classify (e : exn) : error_class :=
  match e with
  | SyntaxError => ParseError
  | ExpectedPoint => InvalidPublicKeyError
  | ExpectedTweak => InvalidTweakError
  | DestructureNull => InvalidTweakError
  | InvalidPrefix => UnsupportedAddressError
  | NoMatchingScript => UnsupportedAddressError
  end.

(** [fails_with r k]: the call threw, and the exception is of class [k]. *)
Definition fails_with {A : Type} (r : result A) (k : error_class) : Prop :=
  exists e, r = Throw e /\ classify e = k.

(** ** The coin record *)

Record CoinStatus : Type := mkStatus {
  isConfirmed : bool;
  blockHeight : option Z;
  blockHash : option jsstring;
  blockTime : option Z
}.

Record Coin : Type := mkCoin {
  txid : jsstring;          (* previous transaction id *)
  vout : Z;                 (* index of the output in the previous transaction *)
  value : Z;
  address : jsstring;
  status : CoinStatus;
  tweak : option jsstring
}.

(** ** Fee estimator *)

(** Modelled from the spec: [WITNESS_SCALE_FACTOR] is imported from
    './consensus.ts', which is not among the sources; the specification
    gives the scale factor as 4. *)
Definition WITNESS_SCALE_FACTOR : Z := 4.

(** [x | 0] on a number: truncate toward zero, then wrap to a signed
    32-bit integer (ToInt32). *)
Definition to_int32 (z : Z) : Z := (z + 2 ^ 31) mod 2 ^ 32 - 2 ^ 31.

(** [(a / b) | 0] for integers [a], [b]: the quotient of the real division,
    truncated toward zero; a division by zero gives an infinity or NaN,
    which [| 0] turns into 0. *)
Definition div_or0 (a b : Z) : Z :=
  if b =? 0 then 0 else to_int32 (Z.quot a b).

Definition estimateSpendingSize (this : Coin) : Z :=
  let total := 0 in
  (* Outpoint (hash and index) + sequence *)
  let total := total + (32 + 4 + 4) in
  (* legacy script size (0x00) *)
  let total := total + 1 in
  let size := 0 in
  (* varint-items-len *)
  let size := size + 1 in
  (* varint-len [signature] *)
  let size := size + (1 + 73) in
  (* varint-len [key] *)
  let size := size + (1 + 33) in
  (* vsize *)
  let size := div_or0 (size + WITNESS_SCALE_FACTOR - 1) WITNESS_SCALE_FACTOR in
  let total := total + size in
  total.

(** The double that holds the integer [z]; exact below [2 ^ 53] in
    magnitude. *)
Definition number_of_Z (z : Z) : float :=
  match z with
  | Z0 => 0%float
  | Zpos _ => PrimFloat.of_uint63 (Uint63.of_Z z)
  | Zneg _ => PrimFloat.opp (PrimFloat.of_uint63 (Uint63.of_Z (- z)))
  end.

(** The product is the multiplication of two doubles. *)
Definition estimateSpendingFee (this : Coin) (feeRate : float) : float :=
  PrimFloat.mul (number_of_Z (estimateSpendingSize this)) feeRate.

(** The integer ceiling of [a / b], for the statement of the size claim. *)
Definition ceil_div (a b : Z) : Z := - ((- a) / b).

(** ** JSON *)

(** [JSON.stringify] and [JSON.parse] are built into the runtime; the codec
    is nothing but a call of each, so they are modelled here, as the
    language standard describes them (ECMA-262, JSON object), for the values
    a coin record is made of.

    The JavaScript values JSON carries, and [undefined].  An object is the
    list of its own properties in the order the runtime lists them: the keys
    that are array indices first, in ascending order, then the other keys in
    the order of their creation.  A number that
    is an integer is a [JNum]: this is exact for the integers a double holds
    exactly and writes in plain digits (below [10 ^ 21] in magnitude), which
    covers indices, amounts, heights and times.  A number written with a
    fraction or an exponent is kept as its numeral ([JNumLit]); the parser
    accepts these as JSON does, and no coin field is of this kind.  A
    minus zero is a zero here. *)
#[local] Set Warnings "-register-all".
Inductive jsval : Type :=
| JUndefined
| JNull
| JBool (b : bool)
| JNum (n : Z)
| JNumLit (numeral : jsstring)
| JStr (s : jsstring)
| JArr (elements : list jsval)
| JObj (properties : list (jsstring * jsval)).

Definition is_undefined (v : jsval) : bool :=
  match v with
  | JUndefined => true
  | _ => false
  end.

Definition ch (a : ascii) : N := N_of_ascii a.

Definition is_digit (c : N) : bool := ((48 <=? c) && (c <=? 57))%N.

(** *** JSON.stringify *)

Fixpoint digits_from (fuel : nat) (n : N) (acc : jsstring) : jsstring :=
  match fuel with
  | O => acc
  | S f =>
      let acc := (48 + n mod 10)%N :: acc in
      if (n / 10 =? 0)%N then acc else digits_from f (n / 10)%N acc
  end.

(** The decimal digits of [n]; a number below [2 ^ k] has at most [k]
    digits. *)
Definition digits (n : N) : jsstring :=
  digits_from (S (N.to_nat (N.log2 n))) n [].

Definition number_to_string (n : Z) : jsstring :=
  match n with
  | Z0 => digits 0
  | Zpos p => digits (Npos p)
  | Zneg p => ch "-" :: digits (Npos p)
  end.

Definition hex_char (n : N) : N :=
  if (n <? 10)%N then (48 + n)%N else (87 + n)%N.

(** [\uXXXX], in lower-case digits. *)
Definition unicode_escape (c : N) : jsstring :=
  [ch "\"; ch "u"; hex_char (c / 4096 mod 16); hex_char (c / 256 mod 16);
   hex_char (c / 16 mod 16); hex_char (c mod 16)]%N.

Definition is_high_surrogate (c : N) : bool := ((55296 <=? c) && (c <=? 56319))%N.
Definition is_low_surrogate (c : N) : bool := ((56320 <=? c) && (c <=? 57343))%N.

(** One code unit that is not half of a surrogate pair. *)
Definition escape_unit (c : N) : jsstring :=
  if (c =? 8)%N then [ch "\"; ch "b"]
  else if (c =? 9)%N then [ch "\"; ch "t"]
  else if (c =? 10)%N then [ch "\"; ch "n"]
  else if (c =? 12)%N then [ch "\"; ch "f"]
  else if (c =? 13)%N then [ch "\"; ch "r"]
  else if (c =? 34)%N then [ch "\"; 34%N]
  else if (c =? 92)%N then [ch "\"; ch "\"]
  else if (c <? 32)%N then unicode_escape c
  else if is_high_surrogate c || is_low_surrogate c then unicode_escape c
  else [c].

Fixpoint escape (s : jsstring) : jsstring :=
  match s with
  | [] => []
  | c :: r =>
      if is_high_surrogate c then
        match r with
        | d :: r' =>
            if is_low_surrogate d then c :: d :: escape r'
            else escape_unit c ++ escape r
        | [] => escape_unit c
        end
      else escape_unit c ++ escape r
  end.

(** QuoteJSONString. *)
Definition quote (s : jsstring) : jsstring := 34%N :: escape s ++ [34%N].

Fixpoint join (sep : jsstring) (l : list jsstring) : jsstring :=
  match l with
  | [] => []
  | [x] => x
  | x :: r => x ++ sep ++ join sep r
  end.

(** [JSON.stringify(v)] for a value other than undefined
    (SerializeJSONProperty, without indentation): a property whose value is
    undefined is left out of an object, and an undefined element of an array
    is written as null. *)
Fixpoint stringify (v : jsval) : jsstring :=
  match v with
  | JUndefined => str "null"
  | JNull => str "null"
  | JBool true => str "true"
  | JBool false => str "false"
  | JNum n => number_to_string n
  | JNumLit s => s
  | JStr s => quote s
  | JArr l => ch "[" :: join [ch ","] (map stringify l) ++ [ch "]"]
  | JObj ps =>
      ch "{" ::
      join [ch ","]
        (flat_map (fun kv =>
           if is_undefined (snd kv) then []
           else [quote (fst kv) ++ ch ":" :: stringify (snd kv)]) ps) ++ [ch "}"]
  end.

(** *** JSON.parse *)

Definition is_ws (c : N) : bool :=
  ((c =? 32) || (c =? 9) || (c =? 10) || (c =? 13))%N.

Fixpoint skip_ws (s : jsstring) : jsstring :=
  match s with
  | c :: r => if is_ws c then skip_ws r else s
  | [] => []
  end.

Definition hex_digit (c : N) : option N :=
  if ((48 <=? c) && (c <=? 57))%N then Some (c - 48)%N
  else if ((97 <=? c) && (c <=? 102))%N then Some (c - 87)%N
  else if ((65 <=? c) && (c <=? 70))%N then Some (c - 55)%N
  else None.

(** The characters of a string literal after its opening quote, up to the
    closing one: the string they denote, and what follows the literal. *)
Fixpoint read_string (s : jsstring) : option (jsstring * jsstring) :=
  match s with
  | [] => None
  | c :: r =>
      if (c =? 34)%N then Some ([], r)
      else if (c =? 92)%N then
        match r with
        | [] => None
        | e :: r1 =>
            let unit (u : N) :=
              match read_string r1 with
              | Some (t, rest) => Some (u :: t, rest)
              | None => None
              end in
            if (e =? 34)%N then unit 34%N
            else if (e =? 92)%N then unit 92%N
            else if (e =? ch "/")%N then unit (ch "/")
            else if (e =? ch "b")%N then unit 8%N
            else if (e =? ch "f")%N then unit 12%N
            else if (e =? ch "n")%N then unit 10%N
            else if (e =? ch "r")%N then unit 13%N
            else if (e =? ch "t")%N then unit 9%N
            else if (e =? ch "u")%N then
              match r1 with
              | h3 :: h2 :: h1 :: h0 :: r2 =>
                  match hex_digit h3, hex_digit h2, hex_digit h1, hex_digit h0 with
                  | Some a, Some b, Some c', Some d =>
                      match read_string r2 with
                      | Some (t, rest) =>
                          Some ((4096 * a + 256 * b + 16 * c' + d)%N :: t, rest)
                      | None => None
                      end
                  | _, _, _, _ => None
                  end
              | _ => None
              end
            else None
        end
      else if (c <? 32)%N then None
      else
        match read_string r with
        | Some (t, rest) => Some (c :: t, rest)
        | None => None
        end
  end.

(** The longest prefix of digits, and the rest. *)
Fixpoint read_digits (s : jsstring) : jsstring * jsstring :=
  match s with
  | c :: r =>
      if is_digit c then let (ds, rest) := read_digits r in (c :: ds, rest)
      else ([], s)
  | [] => ([], [])
  end.

Definition digits_value (ds : jsstring) : N :=
  fold_left (fun a d => (10 * a + (d - 48))%N) ds 0%N.

(** The fraction of a numeral, when there is one: a point and one digit at
    least. *)
Definition read_fraction (s : jsstring) : option (jsstring * jsstring) :=
  match s with
  | c :: r =>
      if (c =? ch ".")%N then
        match read_digits r with
        | ([], _) => None
        | (ds, rest) => Some (c :: ds, rest)
        end
      else Some ([], s)
  | [] => Some ([], [])
  end.

(** The exponent of a numeral, when there is one. *)
Definition read_exponent (s : jsstring) : option (jsstring * jsstring) :=
  match s with
  | c :: r =>
      if ((c =? ch "e") || (c =? ch "E"))%N then
        let (sign, r1) :=
          match r with
          | g :: r' => if ((g =? ch "+") || (g =? ch "-"))%N then ([g], r') else ([], r)
          | [] => ([], r)
          end in
        match read_digits r1 with
        | ([], _) => None
        | (ds, rest) => Some (c :: sign ++ ds, rest)
        end
      else Some ([], s)
  | [] => Some ([], [])
  end.

(** A JSON numeral: an optional minus, an integer part without leading
    zeros, an optional fraction, an optional exponent. *)
Definition read_number (s : jsstring) : option (jsval * jsstring) :=
  let (minus, s1) :=
    match s with
    | c :: r => if (c =? ch "-")%N then (true, r) else (false, s)
    | [] => (false, s)
    end in
  let (int, s2) :=
    match s1 with
    | c :: r => if (c =? ch "0")%N then ([c], r) else read_digits s1
    | [] => ([], s1)
    end in
  match int with
  | [] => None
  | _ =>
      match read_fraction s2 with
      | None => None
      | Some (frac, s3) =>
          match read_exponent s3 with
          | None => None
          | Some (exp, s4) =>
              match frac, exp with
              | [], [] =>
                  let n := Z.of_N (digits_value int) in
                  Some (JNum (if minus then - n else n), s4)
              | _, _ =>
                  Some (JNumLit ((if minus then [ch "-"] else []) ++ int ++ frac ++ exp), s4)
              end
          end
      end
  end.

Fixpoint jsstring_eqb (a b : jsstring) : bool :=
  match a, b with
  | [], [] => true
  | x :: a', y :: b' => (x =? y)%N && jsstring_eqb a' b'
  | _, _ => false
  end.

(** [word] at the head of [s]: what follows it. *)
Fixpoint expect (word s : jsstring) : option jsstring :=
  match word, s with
  | [], _ => Some s
  | w :: word', c :: r => if (w =? c)%N then expect word' r else None
  | _ :: _, [] => None
  end.

(** The array index a key stands for, when it is one: the canonical
    decimal text of an integer below [2 ^ 32 - 1]. *)
Definition array_index (k : jsstring) : option N :=
  let n := digits_value k in
  if forallb is_digit k && jsstring_eqb k (digits n) && (n <? 4294967295)%N
  then Some n
  else None.

Definition has_key (ps : list (jsstring * jsval)) (k : jsstring) : bool :=
  existsb (fun kv => jsstring_eqb (fst kv) k) ps.

(** A new value for the property [k] the object has. *)
Fixpoint replace_prop (ps : list (jsstring * jsval)) (k : jsstring) (v : jsval)
    : list (jsstring * jsval) :=
  match ps with
  | [] => []
  | (k', v') :: r =>
      if jsstring_eqb k' k then (k', v) :: r else (k', v') :: replace_prop r k v
  end.

(** A new property whose key is the array index [i]: after the indices
    below it. *)
Fixpoint insert_index (ps : list (jsstring * jsval)) (i : N) (k : jsstring)
    (v : jsval) : list (jsstring * jsval) :=
  match ps with
  | [] => [(k, v)]
  | (k', v') :: r =>
      match array_index k' with
      | Some j =>
          if (j <? i)%N then (k', v') :: insert_index r i k v else (k, v) :: ps
      | None => (k, v) :: ps
      end
  end.

(** Defining the property [k] of an object, the list being the own
    properties in the order the runtime lists them: a known key keeps its
    place and takes the new value; a new key that is an array index goes
    among the indices, in ascending order, before every other key; any other
    new key comes last. *)
Definition set_prop (ps : list (jsstring * jsval)) (k : jsstring) (v : jsval)
    : list (jsstring * jsval) :=
  if has_key ps k then replace_prop ps k v
  else
    match array_index k with
    | Some i => insert_index ps i k v
    | None => ps ++ [(k, v)]
    end.

Section Parser.

(** The parser of one value, for the elements and the members. *)
Variable value_parser : jsstring -> option (jsval * jsstring).

(** The elements of an array after the first: [, value]* and the closing
    bracket. *)
Fixpoint parse_elements (n : nat) (acc : list jsval) (s : jsstring)
    : option (jsval * jsstring) :=
  match n with
  | O => None
  | S n' =>
      match value_parser s with
      | None => None
      | Some (v, r) =>
          match skip_ws r with
          | c :: r' =>
              if (c =? ch ",")%N then parse_elements n' (acc ++ [v]) r'
              else if (c =? ch "]")%N then Some (JArr (acc ++ [v]), r')
              else None
          | [] => None
          end
      end
  end.

Fixpoint parse_members (n : nat) (acc : list (jsstring * jsval)) (s : jsstring)
    : option (jsval * jsstring) :=
  match n with
  | O => None
  | S n' =>
      match skip_ws s with
      | q :: r =>
          if (q =? 34)%N then
            match read_string r with
            | None => None
            | Some (k, r1) =>
                match skip_ws r1 with
                | c :: r2 =>
                    if (c =? ch ":")%N then
                      match value_parser r2 with
                      | None => None
                      | Some (v, r3) =>
                          match skip_ws r3 with
                          | d :: r4 =>
                              if (d =? ch ",")%N then parse_members n' (set_prop acc k v) r4
                              else if (d =? ch "}")%N then Some (JObj (set_prop acc k v), r4)
                              else None
                          | [] => None
                          end
                      end
                    else None
                | [] => None
                end
            end
          else None
      | [] => None
      end
  end.

End Parser.

(** One JSON value at the head of [s], after white space.  [fuel] bounds the
    nesting and the number of elements of a container. *)
Fixpoint parse_value (fuel : nat) (s : jsstring) : option (jsval * jsstring) :=
  match fuel with
  | O => None
  | S f =>
      match skip_ws s with
      | [] => None
      | c :: r =>
          if (c =? ch "{")%N then
            match skip_ws r with
            | d :: r' =>
                if (d =? ch "}")%N then Some (JObj [], r')
                else parse_members (parse_value f) f [] r
            | [] => None
            end
          else if (c =? ch "[")%N then
            match skip_ws r with
            | d :: r' =>
                if (d =? ch "]")%N then Some (JArr [], r')
                else parse_elements (parse_value f) f [] r
            | [] => None
            end
          else if (c =? 34)%N then
            match read_string r with
            | Some (t, rest) => Some (JStr t, rest)
            | None => None
            end
          else if (c =? ch "t")%N then
            match expect (str "rue") r with
            | Some rest => Some (JBool true, rest)
            | None => None
            end
          else if (c =? ch "f")%N then
            match expect (str "alse") r with
            | Some rest => Some (JBool false, rest)
            | None => None
            end
          else if (c =? ch "n")%N then
            match expect (str "ull") r with
            | Some rest => Some (JNull, rest)
            | None => None
            end
          else read_number (c :: r)
      end
  end.

(** [JSON.parse(text)]: the value, or [None] for the SyntaxError of a text
    that is not one JSON value between white space. *)
Definition JSON_parse (text : jsstring) : option jsval :=
  match parse_value (S (length text)) text with
  | Some (v, rest) =>
      match skip_ws rest with
      | [] => Some v
      | _ :: _ => None
      end
  | None => None
  end.

(** *** Notions for the proofs about written texts *)

(** The values [JSON.stringify] writes in full: no undefined, no numeral
    kept as text, and no object with two properties of one key. *)
Inductive plain : jsval -> Prop :=
| plain_null : plain JNull
| plain_bool b : plain (JBool b)
| plain_num n : plain (JNum n)
| plain_str s : plain (JStr s)
| plain_arr l : Forall plain l -> plain (JArr l)
| plain_obj ps :
    NoDup (map fst ps) -> Forall (fun kv => plain (snd kv)) ps ->
    plain (JObj ps).

(** No object inside the value has a key that is an array index: its
    properties are listed in the order they were written in. *)
Fixpoint no_index_keys (v : jsval) : bool :=
  match v with
  | JArr l => forallb no_index_keys l
  | JObj ps =>
      forallb (fun kv =>
        match array_index (fst kv) with
        | Some _ => false
        | None => no_index_keys (snd kv)
        end) ps
  | _ => true
  end.

(** Every integer inside the value is one a double holds exactly and
    [JSON.stringify] writes in plain digits. *)
Fixpoint safe_integers (v : jsval) : bool :=
  match v with
  | JNum n => Z.abs n <=? 2 ^ 53
  | JArr l => forallb safe_integers l
  | JObj ps => forallb (fun kv => safe_integers (snd kv)) ps
  | _ => true
  end.

(** A bound on the fuel that parsing the text of a value takes. *)
Fixpoint weight (v : jsval) : nat :=
  match v with
  | JArr l => S (list_sum (map weight l))
  | JObj ps => S (list_sum (map (fun kv => weight (snd kv)) ps))
  | _ => 1
  end.

(** The text of one property of an object. *)
Definition member (kv : jsstring * jsval) : jsstring :=
  quote (fst kv) ++ ch ":" :: stringify (snd kv).

(** What may follow a numeral for it to end there. *)
Definition ends_number (rest : jsstring) : Prop :=
  match rest with
  | [] => True
  | c :: _ => is_digit c = false /\ c <> ch "." /\ c <> ch "e" /\ c <> ch "E"
  end.

(** What follows a value inside a text or at its end. *)
Definition ends_value (rest : jsstring) : Prop :=
  match rest with
  | [] => True
  | c :: _ => c = ch "," \/ c = ch "]" \/ c = ch "}"
  end.

(** A code unit read before the rest of a string literal. *)
Definition prepend (c : N) (o : option (jsstring * jsstring)) :=
  match o with
  | Some (t, rest) => Some (c :: t, rest)
  | None => None
  end.

(** ** Codec *)

(** A coin as the JavaScript object it is at run time: the own properties
    of the instance.  The declared types of the fields are erased there.
    The prototype of the object, which holds the methods, is not part of
    it. *)
Definition instance := list (jsstring * jsval).

(** A field of type [T | undefined]. *)
Definition optional {A : Type} (f : A -> jsval) (o : option A) : jsval :=
  match o with
  | Some a => f a
  | None => JUndefined
  end.

(** A property that exists only when its value does. *)
Definition own {A : Type} (k : string) (f : A -> jsval) (o : option A)
    : list (jsstring * jsval) :=
  match o with
  | Some a => [(str k, f a)]
  | None => []
  end.

(** The object held in [this.status]. *)
Definition status_value (st : CoinStatus) : jsval :=
  JObj ((str "isConfirmed", JBool (isConfirmed st)) ::
        own "blockHeight" JNum (blockHeight st) ++
        own "blockHash" JStr (blockHash st) ++
        own "blockTime" JNum (blockTime st)).

(** [toJSON] of an instance that holds the record [this]: every declared
    field is there with its declared type, the numbers being integers. *)
Definition toJSON (this : Coin) : jsstring :=
  stringify
    (JObj [(str "txid", JStr (txid this));
           (str "vout", JNum (vout this));
           (str "value", JNum (value this));
           (str "address", JStr (address this));
           (str "status", status_value (status this));
           (str "tweak", optional JStr (tweak this))]).

(** Decimal index [i] as a property key. *)
Definition index_key (i : nat) : jsstring := digits (N.of_nat i).

Fixpoint indexed (i : nat) (l : list jsval) : list (jsstring * jsval) :=
  match l with
  | [] => []
  | v :: r => (index_key i, v) :: indexed (S i) r
  end.

(** The own enumerable properties of a value taken as an object: the
    properties of an object, the elements of an array and the code units of a
    string under their indices, nothing for the other values. *)
Definition own_properties (v : jsval) : list (jsstring * jsval) :=
  match v with
  | JObj ps => ps
  | JArr l => indexed 0 l
  | JStr s => indexed 0 (map (fun c => JStr [c]) s)
  | _ => []
  end.

(** [target[k] = v] on an instance.  The key [__proto__] runs the setter
    that every object inherits: it replaces the prototype when [v] is an
    object or null and does nothing otherwise, and the instance gains no
    property either way. *)
Definition assign_prop (target : instance) (kv : jsstring * jsval) : instance :=
  if jsstring_eqb (fst kv) (str "__proto__") then target
  else set_prop target (fst kv) (snd kv).

(** [Object.assign(target, source)]. *)
Definition Object_assign (target : instance) (source : jsval) : instance :=
  fold_left assign_prop (own_properties source) target.

(** [new Coin(partial)]: [Object.assign(this, partial)] on a fresh
    instance; nothing is required of [partial].  The field declarations of
    the class are taken as types that create no property; were they compiled
    to class fields, each would be a property of value undefined until it is
    assigned, which reads the same through [get]. *)
Definition Coin_new (partial : jsval) : instance := Object_assign [] partial.

Definition fromJSON (json : jsstring) : result instance :=
  match JSON_parse json with
  | Some v => Ret (Coin_new v)
  | None => Throw SyntaxError
  end.

(** Reading an own property: undefined when the object has none of that
    key.  What an object inherits from its prototype is not read here. *)
Fixpoint get (o : list (jsstring * jsval)) (k : jsstring) : jsval :=
  match o with
  | [] => JUndefined
  | (k', v) :: r => if jsstring_eqb k' k then v else get r k
  end.

(** Reading values at the declared types of the fields. *)
Definition as_string (v : jsval) : option jsstring :=
  match v with
  | JStr s => Some s
  | _ => None
  end.

Definition as_number (v : jsval) : option Z :=
  match v with
  | JNum n => Some n
  | _ => None
  end.

Definition as_boolean (v : jsval) : option bool :=
  match v with
  | JBool b => Some b
  | _ => None
  end.

(** A field of type [T | undefined]: absent when undefined. *)
Definition as_optional {A : Type} (f : jsval -> option A) (v : jsval)
    : option (option A) :=
  match v with
  | JUndefined => Some None
  | _ => option_map Some (f v)
  end.

Definition opt_bind {A B : Type} (o : option A) (k : A -> option B) : option B :=
  match o with
  | Some a => k a
  | None => None
  end.

Definition as_status (v : jsval) : option CoinStatus :=
  match v with
  | JObj ps =>
      opt_bind (as_boolean (get ps (str "isConfirmed"))) (fun c =>
      opt_bind (as_optional as_number (get ps (str "blockHeight"))) (fun h =>
      opt_bind (as_optional as_string (get ps (str "blockHash"))) (fun b =>
      opt_bind (as_optional as_number (get ps (str "blockTime"))) (fun t =>
      Some (mkStatus c h b t)))))
  | _ => None
  end.

(** The coin record an instance holds, field by field, when every field
    is there with its declared type. *)
Definition as_coin (o : instance) : option Coin :=
  opt_bind (as_string (get o (str "txid"))) (fun t =>
  opt_bind (as_number (get o (str "vout"))) (fun n =>
  opt_bind (as_number (get o (str "value"))) (fun v =>
  opt_bind (as_string (get o (str "address"))) (fun a =>
  opt_bind (as_status (get o (str "status"))) (fun s =>
  opt_bind (as_optional as_string (get o (str "tweak"))) (fun w =>
  Some (mkCoin t n v a s w))))))).

(** The instance that holds the record [c]. *)
Definition instance_of (c : Coin) : instance :=
  [(str "txid", JStr (txid c));
   (str "vout", JNum (vout c));
   (str "value", JNum (value c));
   (str "address", JStr (address c));
   (str "status", status_value (status c))] ++
  own "tweak" JStr (tweak c).

(** ** Input builder *)

(** bitcoinjs-lib's [Network]. *)
Record Network : Type := mkNetwork {
  messagePrefix : jsstring;
  bech32 : jsstring;
  bip32_public : Z;
  bip32_private : Z;
  pubKeyHash : Z;
  scriptHash : Z;
  wif : Z
}.

(** What tiny-secp256k1's [xOnlyPointAddTweak] returns when it is not null. *)
Record XOnlyPointAddTweakResult : Type := mkTweakResult {
  parity : Z;
  xOnlyPubkey : Buffer
}.

(** The imported functions.  They are code of other packages, so
    [toInput] is stated over any implementation of them:
    - [toOutputScript] (bitcoinjs-lib, address): the output script of an
      address for a network, or an exception;
    - [xOnlyPointAddTweak] (tiny-secp256k1): the x-only key plus tweak times
      the generator, null when that sum is the point at infinity, or an
      exception when an argument is rejected;
    - [isXOnlyPoint] (tiny-secp256k1): whether a buffer is the 32-byte
      encoding of the x coordinate of a curve point.  [toInput] does not
      call it; it is the library's own test of a key, in whose terms is
      said what [xOnlyPointAddTweak] rejects. *)
Class Libraries : Type := {
  toOutputScript : jsstring -> Network -> result Buffer;
  xOnlyPointAddTweak : Buffer -> Buffer -> result (option XOnlyPointAddTweakResult);
  isXOnlyPoint : Buffer -> bool
}.

Module WitnessUtxo.
Record t : Type := mk {
  script : Buffer;
  value : Z
}.
End WitnessUtxo.

(** The object [toInput] returns; [tapInternalKey] is absent on the
    standard path. *)
Record Input : Type := mkInput {
  hash : jsstring;
  index : Z;
  witnessUtxo : WitnessUtxo.t;
  tapInternalKey : option Buffer
}.

(** [buf.subarray(s, e)]. *)
Definition subarray (buf : Buffer) (s e : nat) : Buffer :=
  firstn (e - s) (skipn s buf).

(** [buf[0] === b]; reading an empty buffer gives undefined. *)
Definition first_is (buf : Buffer) (b : byte) : bool :=
  match buf with
  | b0 :: _ => Byte.eqb b0 b
  | [] => false
  end.

(** The first statement of [toInput]: a compressed key loses its parity
    byte, anything else is kept as it is. *)
Definition xOnly (spendPubBuffer : Buffer) : Buffer :=
  if (length spendPubBuffer =? 33)%nat &&
     (first_is spendPubBuffer x02 || first_is spendPubBuffer x03)
  then subarray spendPubBuffer 1 33
  else spendPubBuffer.

Definition byte_of_N (n : N) : byte :=
  match Byte.of_N n with
  | Some b => b
  | None => x00
  end.

(** The low byte of a code unit. *)
Definition low_byte (c : N) : N := N.land c 255.

(** [Buffer.from(s, 'hex')]: one byte for every two digits, up to the first
    pair that is not two hexadecimal digits; a single trailing character is
    dropped.  The decoder reads the low byte of each code unit, so a unit
    above 0xFF counts as the character of its low byte. *)
Fixpoint Buffer_from_hex (s : jsstring) : Buffer :=
  match s with
  | h :: l :: rest =>
      match hex_digit (low_byte h), hex_digit (low_byte l) with
      | Some a, Some b => byte_of_N (16 * a + b) :: Buffer_from_hex rest
      | _, _ => []
      end
  | _ => []
  end.

(** [if (this.tweak)]: the tweak when it is truthy, that is a non-empty
    string; an absent tweak and the empty string take the other branch. *)
Definition truthy (s : option jsstring) : option jsstring :=
  match s with
  | Some (c :: t) => Some (c :: t)
  | _ => None
  end.

Definition toInput `{Libraries} (this : Coin) (network : Network)
    (spendPubBuffer : Buffer) : result Input :=
  (* ensure x-only, if it's a compressed pubkey *)
  let spendPubBuffer := xOnly spendPubBuffer in
  match truthy (tweak this) with
  | Some tw =>
      let tweakBuf := Buffer_from_hex tw in
      r <- xOnlyPointAddTweak spendPubBuffer tweakBuf ;;
      match r with
      | None => Throw DestructureNull
      | Some r =>
          Ret {| hash := txid this;
                 index := vout this;
                 witnessUtxo :=
                   {| WitnessUtxo.script := [x51; x20] ++ xOnlyPubkey r;
                      WitnessUtxo.value := value this |};
                 tapInternalKey := Some spendPubBuffer |}
      end
  | None =>
      s <- toOutputScript (address this) network ;;
      Ret {| hash := txid this;
             index := vout this;
             witnessUtxo :=
               {| WitnessUtxo.script := s;
                  WitnessUtxo.value := value this |};
             tapInternalKey := None |}
  end.

(** ** Reference libraries

    One implementation of [Libraries], to run the class on concrete
    inputs: the x-only tweak addition of secp256k1 with the checks of
    tiny-secp256k1, and the address decoder of bitcoinjs-lib for the segwit
    addresses of version 0 (BIP 173), which give the P2WPKH and P2WSH
    scripts.  The other addresses the library knows, those in base58 and
    those of the later segwit versions, are outside this implementation: it
    rejects them all, which the library does not.  The theorems are stated
    over every implementation; this one serves the concrete runs, whose
    addresses are of version 0. *)

Module Secp256k1.

Local Open Scope bigZ_scope.

Definition p : bigZ := 2 ^ 256 - 2 ^ 32 - 977.
Definition n : bigZ :=
  BigZ.of_Z 0xFFFFFFFFFFFFFFFFFFFFFFFFFFFFFFFEBAAEDCE6AF48A03BBFD25E8CD0364141.
Definition Gx : bigZ :=
  BigZ.of_Z 0x79BE667EF9DCBBAC55A06295CE870B07029BFCDB2DCE28D959F2815B16F81798.
Definition Gy : bigZ :=
  BigZ.of_Z 0x483ADA7726A3C4655DA4FBFC0E1108A8FD17B448A68554199C47D08FFB10D4B8.

(** A point of the curve [y^2 = x^3 + 7]; [None] is the point at
    infinity. *)
Definition point := option (bigZ * bigZ).

Definition G : point := Some (Gx, Gy).

Fixpoint pow_mod (b : bigZ) (e : positive) : bigZ :=
  match e with
  | xH => b mod p
  | xO e' => let r := pow_mod b e' in (r * r) mod p
  | xI e' => let r := pow_mod b e' in ((r * r) mod p * b) mod p
  end.

Definition exponent (e : bigZ) : positive := Z.to_pos (BigZ.to_Z e).

(** The extended Euclidean algorithm: [t0] is the coefficient of the
    number to invert. *)
Fixpoint inv_loop (fuel : nat) (r0 r1 t0 t1 : bigZ) : bigZ :=
  match fuel with
  | O => t0
  | S f =>
      if r1 =? 0 then t0
      else let q := r0 / r1 in inv_loop f r1 (r0 - q * r1) t1 (t0 - q * t1)
  end.

Definition inv (a : bigZ) : bigZ := inv_loop 1024 p (a mod p) 0 1 mod p.

Definition add (P Q : point) : point :=
  match P, Q with
  | None, _ => Q
  | _, None => P
  | Some (x1, y1), Some (x2, y2) =>
      if (x1 =? x2) && negb (y1 =? y2) then None
      else if (x1 =? x2) && (y1 =? 0) then None
      else
        let lam :=
          if x1 =? x2
          then (3 * x1 * x1 * inv (2 * y1)) mod p
          else ((y2 - y1) * inv (x2 - x1)) mod p in
        let x3 := (lam * lam - x1 - x2) mod p in
        Some (x3, (lam * (x1 - x3) - y1) mod p)
  end.

Fixpoint mul_pos (k : positive) (P : point) : point :=
  match k with
  | xH => P
  | xO k' => let Q := mul_pos k' P in add Q Q
  | xI k' => let Q := mul_pos k' P in add (add Q Q) P
  end.

Definition mul (k : bigZ) (P : point) : point :=
  match BigZ.to_Z k with
  | Zpos k' => mul_pos k' P
  | _ => None
  end.

(** The point of even ordinate and abscissa [x], when there is one
    (BIP 340). *)
Definition lift_x (x : bigZ) : point :=
  if negb ((0 <=? x) && (x <? p)) then None
  else
    let c := (x * x * x + 7) mod p in
    let y := pow_mod c (exponent ((p + 1) / 4)) in
    if negb ((y * y) mod p =? c) then None
    else Some (x, if BigZ.even y then y else p - y).

(** A buffer as a big-endian number. *)
Definition of_bytes (b : Buffer) : bigZ :=
  BigZ.of_Z (fold_left (fun acc x => (acc * 256 + Z.of_N (Byte.to_N x))%Z) b 0%Z).

Fixpoint Z_to_bytes (len : nat) (z : Z) : Buffer :=
  match len with
  | O => []
  | S k => Z_to_bytes k (z / 256)%Z ++ [byte_of_N (Z.to_N (z mod 256)%Z)]
  end.

Definition to_bytes (x : bigZ) : Buffer := Z_to_bytes 32 (BigZ.to_Z x).

Definition isXOnlyPoint (pk : Buffer) : bool :=
  (length pk =? 32)%nat &&
  match lift_x (of_bytes pk) with
  | Some _ => true
  | None => false
  end.

(** A tweak: 32 bytes, below the order of the group. *)
Definition isTweak (tw : Buffer) : bool :=
  (length tw =? 32)%nat && (of_bytes tw <? n).

(** The checks come in the library's order: the length of the key, the
    tweak, then whether the key is on the curve. *)
Definition xOnlyPointAddTweak (pk tw : Buffer)
    : result (option XOnlyPointAddTweakResult) :=
  if negb (length pk =? 32)%nat then Throw ExpectedPoint
  else if negb (isTweak tw) then Throw ExpectedTweak
  else if negb (isXOnlyPoint pk) then Throw ExpectedPoint
  else
    match add (lift_x (of_bytes pk)) (mul (of_bytes tw) G) with
    | None => Ret None
    | Some (x, y) =>
        Ret (Some {| parity := if BigZ.even y then 0%Z else 1%Z;
                     xOnlyPubkey := to_bytes x |})
    end.

End Secp256k1.

Module Bech32.

Definition ALPHABET : jsstring := str "qpzry9x8gf2tvdw0s3jn54khce6mua7l".

Fixpoint index_of (c : N) (l : list N) (i : Z) : option Z :=
  match l with
  | [] => None
  | x :: r => if (x =? c)%N then Some i else index_of c r (i + 1)
  end.

Definition polymodStep (pre : Z) : Z :=
  let b := Z.shiftr pre 25 in
  let g (i : Z) (c : Z) := if Z.testbit b i then c else 0 in
  Z.lxor (Z.shiftl (Z.land pre 0x1ffffff) 5)
   (Z.lxor (g 0 0x3b6a57b2)
    (Z.lxor (g 1 0x26508e6d)
     (Z.lxor (g 2 0x1ea119fa)
      (Z.lxor (g 3 0x3d4233dd) (g 4 0x2a1462b3))))).

Definition prefixChk (prefix : jsstring) : option Z :=
  if forallb (fun c => (33 <=? c) && (c <=? 126))%N prefix then
    let chk :=
      fold_left (fun chk c => Z.lxor (polymodStep chk) (Z.shiftr (Z.of_N c) 5))
        prefix 1 in
    let chk := polymodStep chk in
    Some (fold_left (fun chk c => Z.lxor (polymodStep chk) (Z.land (Z.of_N c) 0x1f))
            prefix chk)
  else None.

Definition toLower (c : N) : N :=
  if ((65 <=? c) && (c <=? 90))%N then (c + 32)%N else c.

Definition toUpper (c : N) : N :=
  if ((97 <=? c) && (c <=? 122))%N then (c - 32)%N else c.

(** [s.lastIndexOf('1')]: the text before the last ['1'] and the text
    after it. *)
Fixpoint split_last (s : jsstring) : option (jsstring * jsstring) :=
  match s with
  | [] => None
  | c :: r =>
      match split_last r with
      | Some (a, b) => Some (c :: a, b)
      | None => if (c =? 49)%N then Some ([], r) else None
      end
  end.

Fixpoint words_of (s : jsstring) : option (list Z) :=
  match s with
  | [] => Some []
  | c :: r =>
      match index_of c ALPHABET 0, words_of r with
      | Some v, Some vs => Some (v :: vs)
      | _, _ => None
      end
  end.

(** The prefix and the words of an encoded text, without the six words of
    the checksum; [ENCODING_CONST] is 1 for bech32 and 0x2bc830a3 for
    bech32m. *)
Definition decode (ENCODING_CONST : Z) (s : jsstring) : option (jsstring * list Z) :=
  if (length s <? 8)%nat then None
  else if (90 <? length s)%nat then None
  else
    let lowered := map toLower s in
    let uppered := map toUpper s in
    if negb (jsstring_eqb s lowered) && negb (jsstring_eqb s uppered) then None
    else
      match split_last lowered with
      | None => None
      | Some ([], _) => None
      | Some (prefix, wordChars) =>
          if (length wordChars <? 6)%nat then None
          else
            match prefixChk prefix, words_of wordChars with
            | Some chk, Some vs =>
                let chk := fold_left (fun chk v => Z.lxor (polymodStep chk) v) vs chk in
                if chk =? ENCODING_CONST
                then Some (prefix, firstn (length vs - 6) vs)
                else None
            | _, _ => None
            end
      end.

(** Words of five bits to bytes, without padding. *)
Fixpoint convert (data : list Z) (value bits : Z) : option (list Z) :=
  match data with
  | [] =>
      if 5 <=? bits then None
      else if negb (Z.land (Z.shiftl value (8 - bits)) 255 =? 0) then None
      else Some []
  | d :: r =>
      let value := Z.lor (Z.shiftl value 5) d in
      let bits := bits + 5 in
      if 8 <=? bits then
        let bits := bits - 8 in
        match convert r (Z.land value (Z.ones bits)) bits with
        | Some out => Some (Z.shiftr value bits :: out)
        | None => None
        end
      else convert r value bits
  end.

Definition fromWords (words : list Z) : option Buffer :=
  match convert words 0 0 with
  | Some l => Some (map (fun z => byte_of_N (Z.to_N z)) l)
  | None => None
  end.

End Bech32.

Module Address.

Record Bech32Result : Type := mkBech32Result {
  version : Z;
  prefix : jsstring;
  data : Buffer
}.

(** Version 0 is written in bech32, the later versions in bech32m. *)
Definition fromBech32 (address : jsstring) : option Bech32Result :=
  let decoded :=
    match Bech32.decode 1 address with
    | Some (prefix, v :: words) =>
        if v =? 0 then Some (prefix, v, words) else None
    | Some (_, []) => None
    | None =>
        match Bech32.decode 0x2bc830a3 address with
        | Some (prefix, v :: words) =>
            if v =? 0 then None else Some (prefix, v, words)
        | _ => None
        end
    end in
  match decoded with
  | Some (prefix, v, words) =>
      match Bech32.fromWords words with
      | Some data => Some (mkBech32Result v prefix data)
      | None => None
      end
  | None => None
  end.

Definition toOutputScript (address : jsstring) (network : Network) : result Buffer :=
  match fromBech32 address with
  | Some r =>
      let len := Z.of_nat (length (data r)) in
      if negb (jsstring_eqb (prefix r) (bech32 network)) then Throw InvalidPrefix
      else if (version r =? 0) && ((len =? 20) || (len =? 32))
      then Ret (x00 :: byte_of_N (Z.to_N len) :: data r)
      else Throw NoMatchingScript
  | None => Throw NoMatchingScript
  end.

End Address.

#[export] Instance reference_libraries : Libraries := {
  toOutputScript := Address.toOutputScript;
  xOnlyPointAddTweak := Secp256k1.xOnlyPointAddTweak;
  isXOnlyPoint := Secp256k1.isXOnlyPoint
}.

(** bitcoinjs-lib's [networks.testnet] and [networks.bitcoin]. *)
Definition testnet : Network := {|
  messagePrefix := 24%N :: str "Bitcoin Signed Message:" ++ [10%N];
  bech32 := str "tb";
  bip32_public := 0x043587cf;
  bip32_private := 0x04358394;
  pubKeyHash := 0x6f;
  scriptHash := 0xc4;
  wif := 0xef
|}.

Definition bitcoin : Network := {|
  messagePrefix := 24%N :: str "Bitcoin Signed Message:" ++ [10%N];
  bech32 := str "bc";
  bip32_public := 0x0488b21e;
  bip32_private := 0x0488ade4;
  pubKeyHash := 0x00;
  scriptHash := 0x05;
  wif := 0x80
|}.

(** ** Sample data *)

(** The unconfirmed coin of the specification's scenario, at the testnet
    address of the command-line examples. *)
Definition sample_coin : Coin := {|
  txid := str "aaaaaaaaaaaaaaaaaaaaaaaaaaaaaaaaaaaaaaaaaaaaaaaaaaaaaaaaaaaaaaaa";
  vout := 0;
  value := 100000;
  address := str "tb1qw508d6qejxtdg4y5r3zarvary0c5xw7kxpjzsx";
  status := mkStatus false None None None;
  tweak := None
|}.

Definition with_tweak (c : Coin) (t : option jsstring) : Coin :=
  {| txid := txid c; vout := vout c; value := value c; address := address c;
     status := status c; tweak := t |}.

Definition with_address (c : Coin) (a : jsstring) : Coin :=
  {| txid := txid c; vout := vout c; value := value c; address := a;
     status := status c; tweak := tweak c |}.

(** A key and a tweak of the test vectors of BIP 341, and the generator
    with the tweak that cancels it. *)
Definition sample_key : Buffer :=
  x02 :: Buffer_from_hex
    (str "d6889cb081036e0faefa3a35157ad71086b123b2b144b649798b494c300a961d").

Definition sample_tweak : jsstring :=
  str "b86e7be8f39bab32a6f2c0443abbc210f0edac0e2c53d501b36b64437d9c6c70".

Definition generator_key : Buffer :=
  x02 :: Buffer_from_hex
    (str "79be667ef9dcbbac55a06295ce870b07029bfcdb2dce28d959f2815b16f81798").

Definition cancelling_tweak : jsstring :=
  str "fffffffffffffffffffffffffffffffebaaedce6af48a03bbfd25e8cd0364140".

(** ** Further notions for the statements *)

Definition with_status (c : Coin) (st : CoinStatus) : Coin :=
  {| txid := txid c; vout := vout c; value := value c; address := address c;
     status := st; tweak := tweak c |}.

(** A code unit that [Buffer.from(s, 'hex')] reads as a hexadecimal digit:
    its low byte is one. *)
Definition is_hex (c : N) : bool :=
  match hex_digit (low_byte c) with
  | Some _ => true
  | None => false
  end.

(** Where [Buffer.from(s, 'hex')] stops reading: at the end of the text, at
    a single last character, or at a pair that is not two digits. *)
Definition stops_hex (rest : jsstring) : Prop :=
  match rest with
  | a :: b :: _ => is_hex a = false \/ is_hex b = false
  | _ => True
  end.

(** What [toInput] returns for the sample coin, and for the sample coin
    with the sample tweak under the sample key. *)
Definition sample_input : Input := {|
  hash := txid sample_coin;
  index := 0;
  witnessUtxo :=
    {| WitnessUtxo.script :=
         Buffer_from_hex (str "0014751e76e8199196d454941c45d1b3a323f1433bd6");
       WitnessUtxo.value := 100000 |};
  tapInternalKey := None
|}.

Definition sample_taproot_input : Input := {|
  hash := txid sample_coin;
  index := 0;
  witnessUtxo :=
    {| WitnessUtxo.script :=
         Buffer_from_hex (str
           "512053a1f6e454df1aa2776a2814a721372d6258050de330b3c6d10ee8f4e0dda343");
       WitnessUtxo.value := 100000 |};
  tapInternalKey := Some (tl sample_key)
|}.

(** The sample tweak in upper case. *)
Definition sample_tweak_upper : jsstring :=
  str "B86E7BE8F39BAB32A6F2C0443ABBC210F0EDAC0E2C53D501B36B64437D9C6C70".

(** ** Command line *)

Module Cli.

(** A step of a command that either goes on with a value or throws an
    [Error] with a message. *)
Inductive outcome (A : Type) : Type :=
| Done (a : A)
| Failed (message : jsstring).
Arguments Done {A} a.
Arguments Failed {A} message.

(** [s.startsWith(w)]. *)
Definition startsWith (s w : jsstring) : bool :=
  match expect w s with
  | Some _ => true
  | None => false
  end.

(** The switch of [initWallet]. *)
Definition esploraUrl (network : jsstring) : outcome jsstring :=
  if jsstring_eqb network (str "main")
  then Done (str "https://blockstream.info/api")
  else if jsstring_eqb network (str "testnet")
  then Done (str "https://blockstream.info/testnet/api")
  else if jsstring_eqb network (str "regtest")
  then Done (str "http://127.0.0.1:8094/regtest/api")
  else Failed (str "Unsupported network: " ++ network).

(** The text after the first [://]. *)
Fixpoint after_scheme (url : jsstring) : jsstring :=
  match url with
  | [] => []
  | c :: r =>
      match expect (str "://") url with
      | Some rest => rest
      | None => after_scheme r
      end
  end.

(** The text before the first [/]. *)
Fixpoint before_slash (s : jsstring) : jsstring :=
  match s with
  | [] => []
  | c :: r => if (c =? ch "/")%N then [] else c :: before_slash r
  end.

(** [new URL(url).host] for a URL [scheme://host/path] or
    [scheme://host:port/path] whose host is in lower case, whose port is not
    the default one of the scheme and which names no user: the three URLs of
    the switch are of this form. *)
Definition URL_host (url : jsstring) : jsstring :=
  before_slash (after_scheme url).

(** The options [initWallet] builds the [EsploraClient] with. *)
Record EsploraClientOptions : Type := mkOptions {
  protocol : jsstring;
  host : jsstring;
  network : jsstring
}.

(** The part of [initWallet] that turns the [--network] option into the
    options of the client; [options.network || 'testnet'] takes the default
    for an absent or empty name. *)
Definition networkClientOptions (option_network : option jsstring)
    : outcome EsploraClientOptions :=
  let network :=
    match truthy option_network with
    | Some n => n
    | None => str "testnet"
    end in
  match esploraUrl network with
  | Failed m => Failed m
  | Done esploraUrl =>
      Done {| protocol :=
                if startsWith esploraUrl (str "https") then str "https" else str "http";
              host := URL_host esploraUrl;
              network := network |}
  end.

(** The options of the client when no network is named. *)
Definition default_options : EsploraClientOptions :=
  {| protocol := str "https"; host := str "blockstream.info";
     network := str "testnet" |}.

(** The wallet method the [send] command calls, with the address it
    passes. *)
Inductive send_call : Type :=
| sendToSilentAddress (address : jsstring)
| send (address : jsstring).

(** How a run of the [send] command ends, up to the call of the wallet:
    the early return 'Address and amount are required'; an error that is
    caught and printed after 'Failed to send: '; or the call of a wallet
    method. *)
Inductive send_result : Type :=
| Required
| FailedToSend (message : jsstring)
| Calls (call : send_call).

(** The [send] command up to the call of the wallet.  The test of the two
    options comes first.  Then [initWallet] runs: it makes the directory and
    the database of the wallet, which are code of other modules and may
    throw, [store_error] being the message when they do; it reads the
    network; it builds the client and the wallet.  Then [wallet.init] runs;
    [open_error] is the message when the client, the wallet or its [init]
    throws.  The address is looked at last.  The amount, a floating-point
    product that throws nothing, is not part of the model. *)
Definition send_action (store_error open_error : option jsstring)
    (network address amount : option jsstring) : send_result :=
  match truthy address, truthy amount with
  | Some a, Some _ =>
      match store_error with
      | Some m => FailedToSend m
      | None =>
          match networkClientOptions network with
          | Failed m => FailedToSend m
          | Done _ =>
              match open_error with
              | Some m => FailedToSend m
              | None =>
                  let isSilentPayment :=
                    startsWith a (str "sp1") || startsWith a (str "tsp1") in
                  if isSilentPayment then Calls (sendToSilentAddress a)
                  else Calls (send a)
              end
          end
      end
  | _, _ => Required
  end.

(** Nothing stands between the test of the address and the call: there is
    an amount, the store is made, the client is built for the network and
    the wallet opens. *)
Definition ready (store_error open_error : option jsstring)
    (network amount : option jsstring) : Prop :=
  truthy amount <> None /\ store_error = None /\
  (exists cfg, networkClientOptions network = Done cfg) /\
  open_error = None.

End Cli.

(** * Properties *)

(** ** Fee estimator *)

Lemma estimateSpendingSize_eq (c : Coin) : estimateSpendingSize c = 69.
Proof. reflexivity. Qed.

(** C5: for every coin, whatever its fields and whether or not it carries
    a tweak, [estimateSpendingSize] is 69: the 41 non-witness bytes plus the
    integer ceiling of the 109 witness bytes over the witness scale
    factor 4. *)
Theorem estimateSpendingSize_is_69 (c : Coin) :
  estimateSpendingSize c = 69 /\
  estimateSpendingSize c = 41 + ceil_div 109 WITNESS_SCALE_FACTOR /\
  WITNESS_SCALE_FACTOR = 4.
Proof.
  rewrite estimateSpendingSize_eq.
  unfold ceil_div, WITNESS_SCALE_FACTOR. repeat split.
Qed.

(** C6: for every coin and every fee rate, non-negative ones in
    particular, [estimateSpendingFee] is the product of 69 and the rate, as
    the language multiplies two numbers: the result is that product itself,
    correctly rounded to a double by the multiplication as IEEE 754 defines
    it, and nothing rounds it further. *)
Theorem estimateSpendingFee_linear (c : Coin) (feeRate : float) :
  estimateSpendingFee c feeRate = PrimFloat.mul 69 feeRate /\
  Prim2SF (estimateSpendingFee c feeRate) = SF64mul (Prim2SF 69) (Prim2SF feeRate).
Proof.
  unfold estimateSpendingFee. rewrite estimateSpendingSize_eq.
  change (number_of_Z 69) with 69%float.
  split; [reflexivity|apply mul_spec].
Qed.

(** The scenario of the specification: 69 virtual bytes, and a fee of 345
    at 5 units per virtual byte; at a tenth of a unit (the double
    0x1.999999999999ap-4) the fee is 6.9 (0x1.b99999999999ap+2), no
    integer. *)
Example sample_size_and_fee :
  estimateSpendingSize sample_coin = 69 /\
  estimateSpendingFee sample_coin 5 = 345%float /\
  estimateSpendingFee sample_coin 0x1.999999999999ap-4 = 0x1.b99999999999ap+2%float.
Proof. repeat split. Qed.

(** ** JSON: parsing a written text *)

#[local] Arguments N.add : simpl never.
#[local] Arguments N.mul : simpl never.
#[local] Arguments N.sub : simpl never.
#[local] Arguments N.div : simpl never.
#[local] Arguments N.modulo : simpl never.

Lemma is_digit_spec c : is_digit c = true <-> (48 <= c <= 57)%N.
Proof.
  unfold is_digit. rewrite andb_true_iff, !N.leb_le. tauto.
Qed.

Lemma digits_from_value f : forall n acc,
  (n < 2 ^ N.of_nat f)%N ->
  fold_left (fun a d => (10 * a + (d - 48))%N) (digits_from f n acc) 0%N =
  fold_left (fun a d => (10 * a + (d - 48))%N) acc n.
Proof.
  induction f as [|f IH]; intros n acc Hn.
  - simpl in Hn. assert (n = 0%N) by lia. subst. reflexivity.
  - cbn [digits_from].
    destruct (N.eqb_spec (n / 10) 0) as [E|E].
    + cbn [fold_left]. f_equal.
      assert (n < 10)%N by (apply N.div_small_iff in E; lia).
      rewrite N.mod_small by lia. lia.
    + rewrite IH.
      * cbn [fold_left]. f_equal.
        clear IH Hn. pose proof (N.div_mod n 10 ltac:(lia)) as H. generalize dependent (n / 10)%N. generalize (n mod 10)%N. intros. lia.
      * rewrite Nat2N.inj_succ, N.pow_succ_r' in Hn.
        assert (n / 10 <= n / 2)%N.
        { apply N.div_le_compat_l. lia. }
        assert (n / 2 < 2 ^ N.of_nat f)%N.
        { apply N.Div0.div_lt_upper_bound; lia. }
        lia.
Qed.

Lemma digits_from_shape f : forall n acc,
  (n < 2 ^ N.of_nat f)%N -> n <> 0%N ->
  exists d r, digits_from f n acc = d :: r ++ acc /\ (49 <= d <= 57)%N /\ Forall (fun c => is_digit c = true) r.
Proof.
  induction f as [|f IH]; intros n acc Hn Hz.
  - simpl in Hn. lia.
  - cbn [digits_from].
    destruct (N.eqb_spec (n / 10) 0) as [E|E].
    + assert (n < 10)%N by (apply N.div_small_iff in E; lia).
      exists (48 + n mod 10)%N, []. rewrite N.mod_small by lia.
      repeat split; try lia. constructor.
    + destruct (IH (n / 10)%N ((48 + n mod 10)%N :: acc)) as (d & r & E1 & Hd & Hr).
      * rewrite Nat2N.inj_succ, N.pow_succ_r' in Hn.
        assert (n / 10 <= n / 2)%N by (apply N.div_le_compat_l; lia).
        assert (n / 2 < 2 ^ N.of_nat f)%N by (apply N.Div0.div_lt_upper_bound; lia).
        lia.
      * exact E.
      * exists d, (r ++ [(48 + n mod 10)%N]). rewrite E1, <- app_assoc. simpl.
        repeat split; try lia.
        apply Forall_app. split; [exact Hr|]. constructor; [|constructor].
        apply is_digit_spec. pose proof (N.mod_upper_bound n 10 ltac:(lia)) as Hm. clear - Hm. generalize dependent (n mod 10)%N. intros; lia.
Qed.

Lemma log2_bound n : (n < 2 ^ N.of_nat (S (N.to_nat (N.log2 n))))%N.
Proof.
  rewrite Nat2N.inj_succ, N2Nat.id.
  destruct n as [|p]; [reflexivity|].
  apply N.log2_spec. reflexivity.
Qed.

Lemma digits_value_digits n : digits_value (digits n) = n.
Proof.
  unfold digits_value, digits. rewrite digits_from_value by apply log2_bound.
  reflexivity.
Qed.

Lemma digits_shape n : n <> 0%N ->
  exists (d : N) (r : jsstring), digits n = (d :: r)%list /\ (49 <= d <= 57)%N /\ Forall (fun c => is_digit c = true) r.
Proof.
  intros Hz. destruct (digits_from_shape _ n [] (log2_bound n) Hz) as (d & r & E & Hd & Hr).
  exists d, r. rewrite app_nil_r in E. auto.
Qed.

Lemma read_digits_app ds rest :
  Forall (fun c => is_digit c = true) ds -> ends_number rest ->
  read_digits (ds ++ rest) = (ds, rest).
Proof.
  intros Hds Hrest. induction Hds as [|d ds Hd _ IH]; simpl.
  - destruct rest as [|c r]; [reflexivity|]. simpl in Hrest.
    simpl. destruct Hrest as [-> _]. reflexivity.
  - rewrite Hd, IH. reflexivity.
Qed.

Ltac norm_ch :=
  repeat match goal with
  | |- context [ch ?a] =>
      let v := eval vm_compute in (ch a) in change (ch a) with v
  | H : context [ch ?a] |- _ =>
      let v := eval vm_compute in (ch a) in change (ch a) with v in H
  end.

(** Decide the next comparison of a code unit with a constant. *)
Ltac test_char :=
  match goal with
  | |- context [(?c =? ?k)%N] =>
      destruct (N.eqb_spec c k); [solve [lia | contradiction | congruence]|]
  end.

Lemma read_fraction_none rest : ends_number rest -> read_fraction rest = Some ([], rest).
Proof.
  destruct rest as [|c r]; [reflexivity|]. intros (_ & H & _).
  unfold read_fraction. test_char. reflexivity.
Qed.

Lemma read_exponent_none rest : ends_number rest -> read_exponent rest = Some ([], rest).
Proof.
  destruct rest as [|c r]; [reflexivity|]. intros (_ & _ & H1 & H2).
  unfold read_exponent. do 2 test_char. reflexivity.
Qed.

Lemma read_unsigned n rest : ends_number rest ->
  exists (d : N) (r : jsstring), digits n = (d :: r)%list /\ is_digit d = true /\
  read_number (digits n ++ rest) = Some (JNum (Z.of_N n), rest).
Proof.
  intros Hrest. destruct (N.eq_dec n 0) as [->|Hz].
  - exists 48%N, []. repeat split. change (digits 0) with [48%N].
    unfold read_number. cbn [app]. norm_ch. cbn [N.eqb Pos.eqb].
    rewrite read_fraction_none, read_exponent_none by assumption. reflexivity.
  - destruct (digits_shape n Hz) as (d & r & E & Hd & Hr).
    exists d, r. split; [exact E|]. split; [apply is_digit_spec; lia|].
    assert (Hall : Forall (fun c => is_digit c = true) (digits n)).
    { rewrite E. constructor; [apply is_digit_spec; lia|exact Hr]. }
    pose proof (read_digits_app _ _ Hall Hrest) as Hread.
    unfold read_number. rewrite E in *. cbn [app] in *. norm_ch.
    do 2 test_char.
    rewrite Hread.
    rewrite read_fraction_none, read_exponent_none by assumption.
    rewrite <- E, digits_value_digits. reflexivity.
Qed.

Lemma read_number_to_string n rest : ends_number rest ->
  read_number (number_to_string n ++ rest) = Some (JNum n, rest).
Proof.
  intros Hrest. destruct n as [|p|p]; unfold number_to_string.
  - destruct (read_unsigned 0 rest Hrest) as (_ & _ & _ & _ & H). exact H.
  - destruct (read_unsigned (Npos p) rest Hrest) as (_ & _ & _ & _ & H). exact H.
  - destruct (read_unsigned (Npos p) rest Hrest) as (d & r & E & Hd & H).
    unfold read_number in *. rewrite E in *. cbn [app] in *.
    apply is_digit_spec in Hd. norm_ch.
    cbn [N.eqb Pos.eqb].
    destruct (N.eqb_spec d 45); [lia|].
    destruct (N.eqb_spec d 48).
    + destruct (read_fraction (r ++ rest)) as [[fr s3]|]; [|discriminate].
      destruct (read_exponent s3) as [[ex s4]|]; [|discriminate].
      destruct fr, ex; try discriminate. injection H as H1 H2.
      rewrite H1, H2. reflexivity.
    + destruct (read_digits (d :: r ++ rest)) as [int s2].
      destruct int; [discriminate|].
      destruct (read_fraction s2) as [[fr s3]|]; [|discriminate].
      destruct (read_exponent s3) as [[ex s4]|]; [|discriminate].
      destruct fr, ex; try discriminate. injection H as H1 H2.
      rewrite H1, H2. reflexivity.
Qed.

(** *** Strings *)

Lemma read_string_literal c r :
  c <> 34%N -> c <> 92%N -> (32 <= c)%N ->
  read_string (c :: r) = prepend c (read_string r).
Proof.
  intros H1 H2 H3. cbn [read_string]. do 2 test_char.
  destruct (N.ltb_spec c 32); [lia|]. reflexivity.
Qed.

Lemma hex_digit_hex_char n : (n < 16)%N -> hex_digit (hex_char n) = Some n.
Proof.
  intros H. unfold hex_char, hex_digit.
  destruct (N.ltb_spec n 10).
  - destruct (N.leb_spec 48 (48 + n)); [|lia].
    destruct (N.leb_spec (48 + n) 57); [|lia].
    cbn [andb]. f_equal. lia.
  - destruct (N.leb_spec 48 (87 + n)); [|lia].
    destruct (N.leb_spec (87 + n) 57); [lia|].
    destruct (N.leb_spec 97 (87 + n)); [|lia].
    destruct (N.leb_spec (87 + n) 102); [|lia].
    cbn [andb]. f_equal. lia.
Qed.

Lemma read_unicode_escape c r :
  (c < 65536)%N ->
  read_string (unicode_escape c ++ r) = prepend c (read_string r).
Proof.
  intros H. unfold unicode_escape. cbn [app read_string]. norm_ch.
  cbn [N.eqb Pos.eqb].
  rewrite !hex_digit_hex_char by (apply N.mod_upper_bound; lia).
  replace (4096 * (c / 4096 mod 16) + 256 * (c / 256 mod 16) +
           16 * (c / 16 mod 16) + c mod 16)%N with c; [reflexivity|].
  zify. Z.to_euclidean_division_equations. lia.
Qed.

Lemma read_escape_unit c r :
  read_string (escape_unit c ++ r) = prepend c (read_string r).
Proof.
  unfold escape_unit.
  repeat match goal with
  | |- context [(c =? ?k)%N] =>
      destruct (N.eqb_spec c k); [subst c; reflexivity|]
  end.
  destruct (N.ltb_spec c 32).
  { apply read_unicode_escape. lia. }
  destruct (is_high_surrogate c || is_low_surrogate c) eqn:E.
  - apply read_unicode_escape. unfold is_high_surrogate, is_low_surrogate in E.
    rewrite orb_true_iff, !andb_true_iff, !N.leb_le in E. lia.
  - apply read_string_literal; assumption.
Qed.

Lemma read_surrogate_pair c d r :
  is_high_surrogate c = true -> is_low_surrogate d = true ->
  read_string (c :: d :: r) = prepend c (prepend d (read_string r)).
Proof.
  unfold is_high_surrogate, is_low_surrogate.
  rewrite !andb_true_iff, !N.leb_le. intros Hc Hd.
  rewrite read_string_literal by lia. f_equal.
  apply read_string_literal; lia.
Qed.

Lemma read_string_escape_bounded n : forall s rest,
  (length s <= n)%nat ->
  read_string (escape s ++ 34%N :: rest) = Some (s, rest).
Proof.
  induction n as [|n IH]; intros s rest Hlen.
  - destruct s; [reflexivity|simpl in Hlen; lia].
  - destruct s as [|c s]; [reflexivity|]. simpl in Hlen.
    cbn [escape]. destruct (is_high_surrogate c) eqn:Hc.
    + destruct s as [|d s'].
      * rewrite read_escape_unit. reflexivity.
      * destruct (is_low_surrogate d) eqn:Hd.
        -- cbn [app]. rewrite read_surrogate_pair by assumption.
           rewrite IH by (simpl in Hlen; lia). reflexivity.
        -- rewrite <- app_assoc, read_escape_unit, IH by lia. reflexivity.
    + rewrite <- app_assoc, read_escape_unit, IH by lia. reflexivity.
Qed.

Lemma read_string_escape s rest :
  read_string (escape s ++ 34%N :: rest) = Some (s, rest).
Proof. apply (read_string_escape_bounded (length s)). lia. Qed.

Lemma read_string_quote s rest :
  exists body, quote s = 34%N :: body /\
    read_string (body ++ rest) = Some (s, rest).
Proof.
  exists (escape s ++ [34%N]). split; [reflexivity|].
  rewrite <- app_assoc. apply read_string_escape.
Qed.

(** *** Values *)

Lemma ends_value_number rest : ends_value rest -> ends_number rest.
Proof.
  destruct rest as [|c r]; [trivial|]. unfold ends_value, ends_number.
  norm_ch. intros [ -> | [ -> | -> ] ]; repeat split; discriminate.
Qed.

Ltac norm_str :=
  repeat match goal with
  | |- context [str ?a] =>
      let v := eval vm_compute in (str a) in change (str a) with v
  end.

Lemma jsstring_eqb_spec a : forall b, reflect (a = b) (jsstring_eqb a b).
Proof.
  induction a as [|x a IH]; intros [|y b]; cbn [jsstring_eqb];
    try (constructor; congruence).
  destruct (N.eqb_spec x y) as [->|Hn]; cbn [andb].
  - destruct (IH b) as [->|Hn]; constructor; congruence.
  - constructor. congruence.
Qed.

Lemma has_key_spec ps k : has_key ps k = true <-> In k (map fst ps).
Proof.
  unfold has_key. rewrite existsb_exists, in_map_iff. split.
  - intros (kv & Hin & E). exists kv.
    destruct (jsstring_eqb_spec (fst kv) k); [auto|discriminate].
  - intros (kv & E & Hin). exists kv. split; [exact Hin|].
    destruct (jsstring_eqb_spec (fst kv) k); [reflexivity|contradiction].
Qed.

Lemma has_key_fresh ps k : ~ In k (map fst ps) -> has_key ps k = false.
Proof.
  intros H. destruct (has_key ps k) eqn:E; [|reflexivity].
  apply has_key_spec in E. contradiction.
Qed.

Lemma set_prop_fresh ps k v :
  ~ In k (map fst ps) -> array_index k = None ->
  set_prop ps k v = ps ++ [(k, v)].
Proof.
  intros Hin Hk. unfold set_prop.
  rewrite has_key_fresh by exact Hin. rewrite Hk. reflexivity.
Qed.

Lemma weight_pos v : (1 <= weight v)%nat.
Proof. destruct v; simpl; lia. Qed.

Lemma number_to_string_head n :
  exists (c : N) (t : jsstring), number_to_string n = (c :: t)%list /\
    (c = 45%N \/ (48 <= c <= 57)%N).
Proof.
  destruct n as [|p|p]; unfold number_to_string.
  - exists 48%N, []. split; [reflexivity|]. right. lia.
  - destruct (digits_shape (Npos p)) as (d & r & -> & Hd & _); [discriminate|].
    exists d, r. split; [reflexivity|]. right. lia.
  - eexists _, _. split; [reflexivity|]. left. reflexivity.
Qed.

Lemma stringify_head v : plain v ->
  exists (c : N) (t : jsstring), stringify v = (c :: t)%list /\ is_ws c = false /\
    c <> ch "]" /\ c <> ch "}".
Proof.
  intros H. destruct H as [ | [ | ] | n | s | l _ | ps _ _ ]; cbn [stringify]; norm_str;
    try (eexists _, _; split; [reflexivity|]; norm_ch; repeat split; discriminate).
  destruct (number_to_string_head n) as (c & t & -> & Hc).
  exists c, t. norm_ch. unfold is_ws.
  repeat split; try lia.
  repeat test_char. reflexivity.
Qed.

Lemma skip_ws_head c r : is_ws c = false -> skip_ws (c :: r) = c :: r.
Proof. intros H. cbn [skip_ws]. rewrite H. reflexivity. Qed.

Lemma members_plain ps :
  Forall (fun kv => plain (snd kv)) ps ->
  flat_map (fun kv =>
    if is_undefined (snd kv) then []
    else [quote (fst kv) ++ ch ":" :: stringify (snd kv)]) ps = map member ps.
Proof.
  induction 1 as [|[k v] ps Hv _ IH]; [reflexivity|].
  cbn [flat_map map]. rewrite IH. cbn [snd fst] in *. unfold member at 1.
  destruct Hv; reflexivity.
Qed.

Section Containers.

Variable pv : jsstring -> option (jsval * jsstring).

Lemma parse_elements_stringify : forall l acc n rest,
  (forall v, In v l -> plain v /\ forall rest', ends_value rest' ->
     pv (stringify v ++ rest') = Some (v, rest')) ->
  l <> [] -> (length l <= n)%nat ->
  parse_elements pv n acc (join [ch ","] (map stringify l) ++ ch "]" :: rest) =
  Some (JArr (acc ++ l), rest).
Proof.
  induction l as [|v l IH]; intros acc n rest Hpv Hne Hn; [congruence|].
  destruct n as [|n]; [simpl in Hn; lia|].
  destruct (Hpv v (or_introl eq_refl)) as [_ Hv].
  cbn [parse_elements map]. destruct l as [|w l].
  - cbn [join map]. rewrite Hv by (right; left; reflexivity).
    rewrite skip_ws_head by reflexivity. norm_ch. cbn [N.eqb Pos.eqb].
    reflexivity.
  - change (join [ch ","] (stringify v :: map stringify (w :: l)))
      with (stringify v ++ [ch ","] ++ join [ch ","] (map stringify (w :: l))).
    rewrite <- !app_assoc. rewrite Hv by (left; reflexivity).
    cbn [app]. rewrite skip_ws_head by reflexivity.
    change (ch "," =? ch ",")%N with true. cbv iota.
    rewrite IH.
    + rewrite <- app_assoc. reflexivity.
    + intros v' Hin. apply Hpv. right. exact Hin.
    + discriminate.
    + simpl in Hn |- *. lia.
Qed.

Lemma parse_members_stringify : forall ps acc n rest,
  (forall kv, In kv ps -> forall rest', ends_value rest' ->
     pv (stringify (snd kv) ++ rest') = Some (snd kv, rest')) ->
  NoDup (map fst (acc ++ ps)) ->
  Forall (fun kv => array_index (fst kv) = None) ps ->
  ps <> [] -> (length ps <= n)%nat ->
  parse_members pv n acc (join [ch ","] (map member ps) ++ ch "}" :: rest) =
  Some (JObj (acc ++ ps), rest).
Proof.
  induction ps as [|[k v] ps IH]; intros acc n rest Hpv Hnd Hidx Hne Hn; [congruence|].
  assert (Hk : array_index k = None) by (inversion Hidx; assumption).
  assert (Hidx' : Forall (fun kv => array_index (fst kv) = None) ps)
    by (inversion Hidx; assumption).
  destruct n as [|n]; [simpl in Hn; lia|].
  pose proof (Hpv (k, v) (or_introl eq_refl)) as Hv. cbn [snd] in Hv.
  assert (Hfresh : ~ In k (map fst acc)).
  { rewrite map_app in Hnd. cbn [map fst] in Hnd.
    apply NoDup_remove_2 in Hnd. intros Hin. apply Hnd.
    apply in_or_app. left. exact Hin. }
  assert (Hstep : forall tail, ends_value tail ->
    exists body, member (k, v) ++ tail = 34%N :: body /\
      read_string body = Some (k, ch ":" :: stringify v ++ tail)).
  { intros tail _. unfold member. cbn [fst snd].
    destruct (read_string_quote k (ch ":" :: stringify v ++ tail)) as (body & -> & Hb).
    exists (body ++ ch ":" :: stringify v ++ tail). split; [|exact Hb].
    cbn [app]. rewrite <- app_assoc. reflexivity. }
  cbn [parse_members map]. destruct ps as [|kw ps].
  - cbn [join map].
    destruct (Hstep (ch "}" :: rest)) as (body & -> & Hb).
    { right; right; reflexivity. }
    rewrite skip_ws_head by reflexivity. cbn [N.eqb Pos.eqb]. rewrite Hb.
    rewrite skip_ws_head by reflexivity.
    change (ch ":" =? ch ":")%N with true. cbv iota.
    rewrite Hv by (right; right; reflexivity).
    rewrite skip_ws_head by reflexivity. norm_ch. cbn [N.eqb Pos.eqb].
    rewrite set_prop_fresh by assumption. reflexivity.
  - change (join [ch ","] (member (k, v) :: map member (kw :: ps)))
      with (member (k, v) ++ [ch ","] ++ join [ch ","] (map member (kw :: ps))).
    rewrite <- !app_assoc.
    destruct (Hstep ([ch ","] ++ join [ch ","] (map member (kw :: ps)) ++ ch "}" :: rest))
      as (body & -> & Hb).
    { left; reflexivity. }
    rewrite skip_ws_head by reflexivity. cbn [N.eqb Pos.eqb]. rewrite Hb.
    rewrite skip_ws_head by reflexivity.
    change (ch ":" =? ch ":")%N with true. cbv iota.
    rewrite Hv by (left; reflexivity).
    cbn [app]. rewrite skip_ws_head by reflexivity.
    change (ch "," =? ch ",")%N with true. cbv iota.
    rewrite set_prop_fresh by assumption.
    rewrite IH.
    + rewrite <- app_assoc. reflexivity.
    + intros kv Hin. apply Hpv. right. exact Hin.
    + rewrite <- app_assoc. exact Hnd.
    + exact Hidx'.
    + discriminate.
    + simpl in Hn |- *. lia.
Qed.

End Containers.

Lemma list_sum_In (A : Type) (w : A -> nat) (l : list A) (x : A) :
  In x l -> (w x <= list_sum (map w l))%nat.
Proof.
  induction l as [|y l IH]; intros Hin; [destruct Hin|].
  simpl. destruct Hin as [->|Hin]; [lia|].
  specialize (IH Hin). lia.
Qed.

Lemma list_sum_length (A : Type) (w : A -> nat) (l : list A) :
  (forall x, 1 <= w x)%nat -> (length l <= list_sum (map w l))%nat.
Proof.
  intros Hw. induction l as [|y l IH]; [reflexivity|].
  simpl. specialize (Hw y). lia.
Qed.

Lemma no_index_keys_elements l :
  no_index_keys (JArr l) = true -> Forall (fun v => no_index_keys v = true) l.
Proof. cbn [no_index_keys]. intros H. apply Forall_forall, forallb_forall, H. Qed.

Lemma no_index_keys_members ps :
  no_index_keys (JObj ps) = true ->
  Forall (fun kv => array_index (fst kv) = None /\ no_index_keys (snd kv) = true) ps.
Proof.
  cbn [no_index_keys]. intros H. apply Forall_forall. intros kv Hin.
  eapply forallb_forall in H; [|exact Hin]. cbn beta in H.
  destruct (array_index (fst kv)); [discriminate|]. split; [reflexivity|exact H].
Qed.

Lemma parse_value_stringify f : forall v rest,
  plain v -> no_index_keys v = true -> (weight v <= f)%nat -> ends_value rest ->
  parse_value f (stringify v ++ rest) = Some (v, rest).
Proof.
  induction f as [|f IH]; intros v rest Hv Hord Hw Hrest.
  { pose proof (weight_pos v). lia. }
  destruct Hv as [ | [ | ] | n | s | l Hl | ps Hnd Hps ];
    [ | | | | | apply no_index_keys_elements in Hord
              | apply no_index_keys_members in Hord ].
  - reflexivity.
  - reflexivity.
  - reflexivity.
  - destruct (number_to_string_head n) as (c & t & E & Hd).
    cbn [parse_value stringify]. rewrite E. cbn [app].
    assert (Hc : is_ws c = false).
    { unfold is_ws. repeat test_char. reflexivity. }
    rewrite skip_ws_head by exact Hc.
    norm_ch. repeat test_char.
    change (c :: t ++ rest) with ((c :: t) ++ rest). rewrite <- E.
    apply read_number_to_string, ends_value_number, Hrest.
  - cbn [parse_value stringify].
    destruct (read_string_quote s rest) as (body & -> & Hb).
    cbn [app]. rewrite skip_ws_head by reflexivity. norm_ch.
    cbn [N.eqb Pos.eqb]. rewrite Hb. reflexivity.
  - cbn [parse_value stringify app]. rewrite skip_ws_head by reflexivity.
    norm_ch. cbn [N.eqb Pos.eqb]. rewrite <- app_assoc. cbn [app].
    destruct l as [|v l]; [reflexivity|].
    destruct (stringify_head v) as (c & t & E & Hc & Hc1 & _).
    { apply Forall_inv in Hl. exact Hl. }
    assert (Hjoin : exists t', join [44%N] (map stringify (v :: l)) ++ 93%N :: rest = c :: t').
    { cbn [map]. destruct l; cbn [join map]; rewrite E; eexists; reflexivity. }
    destruct Hjoin as (t' & Hjoin). rewrite Hjoin.
    rewrite skip_ws_head by exact Hc. norm_ch. test_char.
    rewrite <- Hjoin.
    cbn [weight] in Hw. fold (@list_sum) in Hw.
    apply (parse_elements_stringify (parse_value f) (v :: l) [] f rest).
    + intros w Hin. split; [eapply Forall_forall in Hl; eauto|].
      intros rest' Hrest'. apply IH.
      * eapply Forall_forall in Hl; eauto.
      * eapply Forall_forall in Hord; eauto.
      * pose proof (list_sum_In _ weight (v :: l) w Hin). lia.
      * exact Hrest'.
    + discriminate.
    + pose proof (list_sum_length _ weight (v :: l) weight_pos). lia.
  - cbn [parse_value stringify app]. rewrite skip_ws_head by reflexivity.
    norm_ch. cbn [N.eqb Pos.eqb]. rewrite <- app_assoc. cbn [app].
    rewrite members_plain by exact Hps.
    destruct ps as [|[k v] ps]; [reflexivity|].
    assert (Hjoin : exists t', join [44%N] (map member ((k, v) :: ps)) ++ 125%N :: rest = 34%N :: t').
    { cbn [map]. destruct ps; cbn [join map]; unfold member at 1, quote;
        cbn [app]; eexists; reflexivity. }
    destruct Hjoin as (t' & Hjoin). rewrite Hjoin.
    rewrite skip_ws_head by reflexivity. cbn [N.eqb Pos.eqb].
    rewrite <- Hjoin.
    cbn [weight] in Hw. fold (@list_sum) in Hw.
    apply (parse_members_stringify (parse_value f) ((k, v) :: ps) [] f rest).
    + intros kv Hin rest' Hrest'. apply IH.
      * eapply Forall_forall in Hps; eauto.
      * eapply Forall_forall in Hord; [|exact Hin]. apply Hord.
      * pose proof (list_sum_In _ (fun kv => weight (snd kv)) _ kv Hin). cbn beta in *. lia.
      * exact Hrest'.
    + exact Hnd.
    + eapply Forall_impl; [|exact Hord]. intros kv H. apply H.
    + discriminate.
    + pose proof (list_sum_length _ (fun kv => weight (snd kv)) ((k, v) :: ps)
                    (fun kv => weight_pos (snd kv))). lia.
Qed.

Lemma length_join_ge (l : list jsstring) :
  (list_sum (map (@length N) l) <= length (join [ch ","] l))%nat.
Proof.
  induction l as [|x l IH]; [reflexivity|].
  destruct l as [|y l]; cbn [join map list_sum fold_right] in *.
  - lia.
  - rewrite !length_app. lia.
Qed.

Lemma list_sum_le (A : Type) (f g : A -> nat) (l : list A) :
  (forall x, In x l -> f x <= g x)%nat ->
  (list_sum (map f l) <= list_sum (map g l))%nat.
Proof.
  induction l as [|x l IH]; intros H; [reflexivity|].
  simpl. pose proof (H x (or_introl eq_refl)).
  assert (list_sum (map f l) <= list_sum (map g l))%nat.
  { apply IH. intros y Hy. apply H. right. exact Hy. }
  lia.
Qed.

Lemma weight_le_length n : forall v,
  plain v -> (weight v <= n)%nat -> (weight v <= length (stringify v))%nat.
Proof.
  induction n as [|n IH]; intros v Hv Hn.
  { pose proof (weight_pos v). lia. }
  destruct Hv as [ | [ | ] | z | s | l Hl | ps Hnd Hps ].
  - cbn; lia.
  - cbn; lia.
  - cbn; lia.
  - destruct (stringify_head (JNum z) (plain_num z)) as (c & t & -> & _).
    cbn; lia.
  - cbn; lia.
  - cbn [weight stringify length] in *. rewrite length_app.
    pose proof (length_join_ge (map stringify l)). rewrite map_map in H.
    assert (list_sum (map weight l) <=
            list_sum (map (fun x => length (stringify x)) l))%nat.
    { apply list_sum_le. intros x Hx. apply IH.
      - eapply Forall_forall in Hl; eauto.
      - pose proof (list_sum_In _ weight l x Hx). lia. }
    lia.
  - cbn [weight stringify length] in *. rewrite length_app.
    rewrite members_plain by exact Hps.
    pose proof (length_join_ge (map member ps)). rewrite map_map in H.
    assert (list_sum (map (fun kv => weight (snd kv)) ps) <=
            list_sum (map (fun x => length (member x)) ps))%nat.
    { apply list_sum_le. intros x Hx. unfold member. rewrite length_app.
      cbn [length].
      assert (weight (snd x) <= length (stringify (snd x)))%nat.
      { apply IH.
        - eapply Forall_forall in Hps; eauto.
        - pose proof (list_sum_In _ (fun kv => weight (snd kv)) ps x Hx).
          cbn beta in *. lia. }
      lia. }
    lia.
Qed.

(** [JSON.parse(JSON.stringify(v))] is [v] for every plain value whose
    objects have no array index among their keys. *)
Lemma JSON_parse_stringify v :
  plain v -> no_index_keys v = true -> JSON_parse (stringify v) = Some v.
Proof.
  intros Hv Hord. unfold JSON_parse.
  pose proof (parse_value_stringify (S (length (stringify v))) v [] Hv Hord) as H.
  rewrite app_nil_r in H. rewrite H; [reflexivity| |exact I].
  pose proof (weight_le_length (weight v) v Hv). lia.
Qed.

(** Texts the parser accepts and texts it rejects. *)
Example JSON_parse_accepts :
  JSON_parse (str " [1, -20 ,true,null,[],{}] ") =
    Some (JArr [JNum 1; JNum (-20); JBool true; JNull; JArr []; JObj []]) /\
  JSON_parse (ch "{" :: quote (str "a") ++ str ":1," ++ quote (str "b") ++
              str ":[" ++ quote (str "x") ++ str "]," ++ quote (str "a") ++
              str ":2}") =
    Some (JObj [(str "a", JNum 2); (str "b", JArr [JStr (str "x")])]) /\
  JSON_parse (str "1.5e3") = Some (JNumLit (str "1.5e3")).
Proof. repeat split. Qed.

Example JSON_parse_rejects :
  JSON_parse (str "") = None /\
  JSON_parse (str "{") = None /\
  JSON_parse (str "[1,]") = None /\
  JSON_parse (str "01") = None /\
  JSON_parse (str "1.") = None /\
  JSON_parse (str "nul") = None /\
  JSON_parse (str "{} {}") = None /\
  JSON_parse (str "{txid:1}") = None.
Proof. repeat split. Qed.

(** ** Codec *)

Lemma NoDup_keys (l : list jsstring) :
  (fix distinct (l : list jsstring) : bool :=
     match l with
     | [] => true
     | k :: r => negb (existsb (jsstring_eqb k) r) && distinct r
     end) l = true ->
  NoDup l.
Proof.
  induction l as [|k l IH]; intros H; constructor.
  - apply andb_true_iff in H. destruct H as [H _].
    intros Hin. apply negb_true_iff in H.
    assert (existsb (jsstring_eqb k) l = true).
    { apply existsb_exists. exists k. split; [exact Hin|].
      destruct (jsstring_eqb_spec k k); congruence. }
    congruence.
  - apply IH. apply andb_true_iff in H. apply H.
Qed.

Lemma status_value_plain (st : CoinStatus) : plain (status_value st).
Proof.
  destruct st as [c [h|] [b|] [t|]]; unfold status_value, own; cbn [app];
    (apply plain_obj;
     [apply NoDup_keys; reflexivity
     |repeat constructor]).
Qed.

Lemma instance_of_plain (c : Coin) : plain (JObj (instance_of c)).
Proof.
  pose proof (status_value_plain (status c)) as Hs.
  unfold instance_of, own. destruct (tweak c); cbn [app];
    (apply plain_obj;
     [apply NoDup_keys; reflexivity
     |repeat (constructor; try exact Hs)]).
Qed.

(** The undefined tweak of the object literal is left out of the text. *)
Lemma toJSON_instance_of (c : Coin) : toJSON c = stringify (JObj (instance_of c)).
Proof.
  unfold toJSON, instance_of, own, optional.
  destruct (tweak c); [reflexivity|].
  pose proof (status_value_plain (status c)) as Hs.
  cbn [stringify flat_map app snd fst is_undefined].
  destruct Hs; reflexivity.
Qed.

Lemma instance_of_no_index_keys (c : Coin) :
  no_index_keys (JObj (instance_of c)) = true.
Proof.
  destruct c as [t n v a [cf [h|] [b|] [bt|]] [w|]]; reflexivity.
Qed.

Lemma assign_fresh : forall (ps acc : list (jsstring * jsval)),
  NoDup (map fst (acc ++ ps)) ->
  Forall (fun kv => array_index (fst kv) = None) ps ->
  ~ In (str "__proto__") (map fst ps) ->
  fold_left assign_prop ps acc = acc ++ ps.
Proof.
  induction ps as [|[k v] ps IH]; intros acc Hnd Hidx Hproto.
  - rewrite app_nil_r. reflexivity.
  - cbn [fold_left]. unfold assign_prop at 2. cbn [fst snd].
    cbn [map fst In] in Hproto.
    destruct (jsstring_eqb_spec k (str "__proto__")) as [->|_]; [tauto|].
    rewrite set_prop_fresh.
    + rewrite IH; rewrite <- ?app_assoc;
        [reflexivity|exact Hnd|inversion Hidx; assumption|tauto].
    + rewrite map_app in Hnd. cbn [map fst] in Hnd.
      apply NoDup_remove_2 in Hnd. intros Hin. apply Hnd.
      apply in_or_app. left. exact Hin.
    + inversion Hidx; assumption.
Qed.

Lemma instance_of_keys (c : Coin) :
  Forall (fun kv => array_index (fst kv) = None) (instance_of c) /\
  ~ In (str "__proto__") (map fst (instance_of c)).
Proof.
  unfold instance_of, own. destruct (tweak c); cbn [app map fst In]; split;
    try (repeat constructor);
    intros H; repeat (destruct H as [H|H]; [discriminate H|]); exact H.
Qed.

Lemma as_status_status_value (st : CoinStatus) :
  as_status (status_value st) = Some st.
Proof. destruct st as [c [h|] [b|] [t|]]; reflexivity. Qed.

Lemma as_coin_instance_of (c : Coin) : as_coin (instance_of c) = Some c.
Proof.
  destruct c as [t n v a s w]. unfold as_coin, instance_of.
  cbn [txid vout value address status tweak].
  assert (Hs : get ([(str "txid", JStr t); (str "vout", JNum n);
                     (str "value", JNum v); (str "address", JStr a);
                     (str "status", status_value s)] ++ own "tweak" JStr w)
                 (str "status") = status_value s) by reflexivity.
  rewrite Hs, as_status_status_value.
  destruct w; reflexivity.
Qed.

Lemma fromJSON_toJSON_instance (c : Coin) :
  fromJSON (toJSON c) = Ret (instance_of c).
Proof.
  pose proof (instance_of_plain c) as Hp.
  unfold fromJSON.
  rewrite toJSON_instance_of, JSON_parse_stringify
    by (exact Hp || apply instance_of_no_index_keys).
  unfold Coin_new, Object_assign, own_properties. f_equal.
  apply (assign_fresh (instance_of c) []).
  - inversion Hp; assumption.
  - apply instance_of_keys.
  - apply instance_of_keys.
Qed.

(** C1: for every coin record [c], valid ones in particular,
    [fromJSON (toJSON c)] returns the instance that holds [c]: read at the
    declared types it gives back [c] field for field, the status record
    included, and a tweak that was absent is absent from it. *)
Theorem fromJSON_toJSON (c : Coin) :
  exists o : instance,
    fromJSON (toJSON c) = Ret o /\
    as_coin o = Some c /\
    (tweak c = None -> get o (str "tweak") = JUndefined).
Proof.
  exists (instance_of c). split; [apply fromJSON_toJSON_instance|].
  split; [apply as_coin_instance_of|].
  intros Hw. unfold instance_of. rewrite Hw. reflexivity.
Qed.

(** The scenario of the specification. *)
Example sample_round_trip :
  fromJSON (toJSON sample_coin) = Ret (instance_of sample_coin) /\
  as_coin (instance_of sample_coin) = Some sample_coin.
Proof. split; vm_compute; reflexivity. Qed.

(** *** What an instance keeps of the value it is built from *)

























(** Texts with fields of their own: a property [__proto__] of the text is
    no property of the instance, keys that are array indices come first, in
    ascending order, and of two properties of one key the second gives the
    value. *)
Example fromJSON_keeps_the_fields :
  fromJSON (ch "{" :: quote (str "txid") ++ str ":7," ++
            quote (str "__proto__") ++ str ":{" ++ quote (str "vout") ++
            str ":1}}") =
    Ret [(str "txid", JNum 7)] /\
  fromJSON (ch "{" :: quote (str "b") ++ str ":1," ++ quote (str "10") ++
            str ":2," ++ quote (str "9") ++ str ":3," ++ quote (str "b") ++
            str ":4," ++ quote (str "01") ++ str ":5}") =
    Ret [(str "9", JNum 3); (str "10", JNum 2); (str "b", JNum 4);
         (str "01", JNum 5)] /\
  fromJSON (quote (str "ab")) =
    Ret [(str "0", JStr (str "a")); (str "1", JStr (str "b"))].
Proof. repeat split. Qed.

(** ** Input builder *)

Lemma xOnly_compressed (b : byte) (x : Buffer) :
  length x = 32%nat -> b = x02 \/ b = x03 -> xOnly (b :: x) = x.
Proof.
  intros Hlen Hb. unfold xOnly, subarray. cbn [length skipn first_is].
  rewrite Hlen. cbn [Nat.eqb andb].
  replace (Byte.eqb b x02 || Byte.eqb b x03) with true
    by (destruct Hb as [->| ->]; reflexivity).
  change (33 - 1)%nat with 32%nat. rewrite <- Hlen. apply firstn_all.
Qed.

Lemma xOnly_other_length (key : Buffer) :
  length key <> 33%nat -> xOnly key = key.
Proof.
  intros Hlen. unfold xOnly.
  destruct (Nat.eqb_spec (length key) 33); [contradiction|reflexivity].
Qed.

Section InputBuilder.

Context {L : Libraries}.

(** What tiny-secp256k1 does in its two functions.  The addition tests
    its arguments in this order: a key that is not 32 bytes long is rejected
    with 'Expected Point' whatever the tweak; then the tweak is tested, which
    has to be 32 bytes below the order of the group; then a key that is no
    x-only point is rejected with 'Expected Point'.  An x-only point has 32
    bytes; a sum that is returned has 32 bytes, and is the sum of an x-only
    point. *)
Hypothesis rejects_bad_length : forall pk tw,
  length pk <> 32%nat -> xOnlyPointAddTweak pk tw = Throw ExpectedPoint.

Hypothesis rejects_bad_point : forall pk tw,
  length pk = 32%nat -> isXOnlyPoint pk = false ->
  Secp256k1.isTweak tw = true ->
  xOnlyPointAddTweak pk tw = Throw ExpectedPoint.

Hypothesis point_length : forall pk,
  isXOnlyPoint pk = true -> length pk = 32%nat.

Hypothesis result_sizes : forall pk tw r,
  xOnlyPointAddTweak pk tw = Ret (Some r) ->
  length (xOnlyPubkey r) = 32%nat /\ isXOnlyPoint pk = true.

(** C2: for a coin whose tweak is present, when the addition of the tweak
    to the x-only spend key succeeds with the key [xOnlyPubkey r],
    [toInput] returns a descriptor whose script has 34 bytes: 0x51, 0x20,
    then the 32 bytes of the tweaked key; its outpoint is the coin's txid
    and vout, the value of its witness UTXO is the coin's, and its internal
    key is the 32-byte x-only spend key, not tweaked. *)
Theorem toInput_taproot (c : Coin) (net : Network) (key : Buffer)
    (t : jsstring) (r : XOnlyPointAddTweakResult) :
  truthy (tweak c) = Some t ->
  xOnlyPointAddTweak (xOnly key) (Buffer_from_hex t) = Ret (Some r) ->
  exists d : Input,
    toInput c net key = Ret d /\
    WitnessUtxo.script (witnessUtxo d) = x51 :: x20 :: xOnlyPubkey r /\
    length (WitnessUtxo.script (witnessUtxo d)) = 34%nat /\
    length (xOnlyPubkey r) = 32%nat /\
    hash d = txid c /\ index d = vout c /\
    WitnessUtxo.value (witnessUtxo d) = value c /\
    tapInternalKey d = Some (xOnly key) /\
    length (xOnly key) = 32%nat.
Proof.
  intros Ht Hadd. destruct (result_sizes _ _ _ Hadd) as [Hr Hp].
  apply point_length in Hp.
  unfold toInput. rewrite Ht. cbn zeta. rewrite Hadd. cbn [bind].
  eexists. split; [reflexivity|]. cbn.
  rewrite Hr. repeat split. exact Hp.
Qed.

(** C3: for a coin without a tweak whose address the decoder accepts for
    the network, [toInput] returns the coin's outpoint, a witness UTXO made
    of the script the decoder gives for that address and network and of the
    coin's value, and no internal key. *)
Theorem toInput_standard (c : Coin) (net : Network) (key : Buffer) (s : Buffer) :
  truthy (tweak c) = None ->
  toOutputScript (address c) net = Ret s ->
  toInput c net key =
    Ret {| hash := txid c;
           index := vout c;
           witnessUtxo := {| WitnessUtxo.script := s;
                             WitnessUtxo.value := value c |};
           tapInternalKey := None |}.
Proof.
  intros Ht Hs. unfold toInput. rewrite Ht, Hs. reflexivity.
Qed.

(** C4: for a coin whose tweak is present, when the addition fails, the
    library rejecting the scalar or returning null for a sum at infinity,
    [toInput] throws an error of the invalid-tweak kind and returns no
    descriptor. *)
Theorem toInput_invalid_tweak (c : Coin) (net : Network) (key : Buffer)
    (t : jsstring) :
  truthy (tweak c) = Some t ->
  xOnlyPointAddTweak (xOnly key) (Buffer_from_hex t) = Throw ExpectedTweak \/
  xOnlyPointAddTweak (xOnly key) (Buffer_from_hex t) = Ret None ->
  fails_with (toInput c net key) InvalidTweakError /\
  forall d, toInput c net key <> Ret d.
Proof.
  intros Ht Hadd. unfold toInput, fails_with. rewrite Ht. cbn zeta.
  destruct Hadd as [-> | ->]; cbn [bind].
  - split; [exists ExpectedTweak; split; reflexivity|discriminate].
  - split; [exists DestructureNull; split; reflexivity|discriminate].
Qed.

(** C7: two compressed keys that differ in their parity byte only, 0x02
    against 0x03 before the same 32 bytes, give the same result, for every
    coin and network. *)
Theorem toInput_parity_independent (c : Coin) (net : Network) (x : Buffer) :
  length x = 32%nat ->
  toInput c net (x02 :: x) = toInput c net (x03 :: x).
Proof.
  intros Hlen. unfold toInput.
  rewrite !xOnly_compressed by auto. reflexivity.
Qed.


(** C10: for a coin whose tweak is present, the result depends neither on
    the address of the coin nor on the network. *)
Theorem toInput_taproot_ignores_address_and_network (c : Coin)
    (a a' : jsstring) (net net' : Network) (key : Buffer) (t : jsstring) :
  truthy (tweak c) = Some t ->
  toInput (with_address c a) net key = toInput (with_address c a') net' key.
Proof.
  intros Ht. unfold toInput. cbn [with_address tweak txid vout value].
  rewrite Ht. reflexivity.
Qed.

End InputBuilder.

(** *** The reference libraries *)

Lemma length_Z_to_bytes (len : nat) : forall z,
  length (Secp256k1.Z_to_bytes len z) = len.
Proof.
  induction len as [|len IH]; intros z; [reflexivity|].
  cbn [Secp256k1.Z_to_bytes]. rewrite length_app, IH. cbn [length]. lia.
Qed.



Lemma reference_point_length (pk : Buffer) :
  Secp256k1.isXOnlyPoint pk = true -> length pk = 32%nat.
Proof.
  unfold Secp256k1.isXOnlyPoint. intros H.
  apply andb_true_iff in H. destruct H as [H _].
  apply Nat.eqb_eq. exact H.
Qed.

Lemma reference_result_sizes (pk tw : Buffer) (r : XOnlyPointAddTweakResult) :
  Secp256k1.xOnlyPointAddTweak pk tw = Ret (Some r) ->
  length (xOnlyPubkey r) = 32%nat /\ Secp256k1.isXOnlyPoint pk = true.
Proof.
  unfold Secp256k1.xOnlyPointAddTweak.
  destruct (length pk =? 32)%nat; cbn [negb]; [|discriminate].
  destruct (Secp256k1.isTweak tw); cbn [negb]; [|discriminate].
  destruct (Secp256k1.isXOnlyPoint pk); cbn [negb]; [|discriminate].
  destruct (Secp256k1.add _ _) as [[x y]|]; [|discriminate].
  intros H. injection H as <-. cbn [xOnlyPubkey].
  split; [apply length_Z_to_bytes|reflexivity].
Qed.

(** *** Concrete runs *)

(** The first wallet vector of BIP 341: the internal key, the tweak and
    the output script [5120 53a1f6e4...]. *)
Example taproot_vector :
  toInput (with_tweak sample_coin (Some sample_tweak)) testnet sample_key =
  Ret {| hash := txid sample_coin;
         index := 0;
         witnessUtxo :=
           {| WitnessUtxo.script :=
                Buffer_from_hex (str
                  "512053a1f6e454df1aa2776a2814a721372d6258050de330b3c6d10ee8f4e0dda343");
              WitnessUtxo.value := 100000 |};
         tapInternalKey := Some (tl sample_key) |}.
Proof. vm_compute. reflexivity. Qed.

(** A tweak that is not below the order of the group. *)
Example tweak_out_of_range :
  toInput
    (with_tweak sample_coin (Some (str
       "fffffffffffffffffffffffffffffffebaaedce6af48a03bbfd25e8cd0364141")))
    testnet sample_key = Throw ExpectedTweak.
Proof. vm_compute. reflexivity. Qed.

(** A key of the right length that is no curve point: the error names the
    key when the tweak is a scalar, and the tweak when it is not. *)
Example key_off_the_curve :
  isXOnlyPoint (repeat x00 32) = false /\
  toInput (with_tweak sample_coin (Some sample_tweak)) testnet (repeat x00 32) =
    Throw ExpectedPoint /\
  toInput
    (with_tweak sample_coin (Some (str
       "fffffffffffffffffffffffffffffffebaaedce6af48a03bbfd25e8cd0364141")))
    testnet (repeat x00 32) = Throw ExpectedTweak.
Proof. split; [|split]; vm_compute; reflexivity. Qed.

Lemma toInput_taproot_witness :
  exists d : Input,
    toInput (with_tweak sample_coin (Some sample_tweak)) testnet sample_key = Ret d /\
    WitnessUtxo.script (witnessUtxo d) =
      x51 :: x20 :: Buffer_from_hex (str
        "53a1f6e454df1aa2776a2814a721372d6258050de330b3c6d10ee8f4e0dda343") /\
    length (WitnessUtxo.script (witnessUtxo d)) = 34%nat /\
    length (Buffer_from_hex (str
        "53a1f6e454df1aa2776a2814a721372d6258050de330b3c6d10ee8f4e0dda343")) = 32%nat /\
    hash d = txid sample_coin /\ index d = 0 /\
    WitnessUtxo.value (witnessUtxo d) = 100000 /\
    tapInternalKey d = Some (xOnly sample_key) /\
    length (xOnly sample_key) = 32%nat.
Proof.
  apply (@toInput_taproot reference_libraries reference_point_length
           reference_result_sizes
           (with_tweak sample_coin (Some sample_tweak)) testnet sample_key
           sample_tweak
           {| parity := 1;
              xOnlyPubkey := Buffer_from_hex (str
                "53a1f6e454df1aa2776a2814a721372d6258050de330b3c6d10ee8f4e0dda343") |}).
  - reflexivity.
  - vm_compute. reflexivity.
Defined.

Lemma toInput_standard_witness :
  toInput sample_coin testnet sample_key =
    Ret {| hash := txid sample_coin;
           index := 0;
           witnessUtxo :=
             {| WitnessUtxo.script :=
                  Buffer_from_hex (str "0014751e76e8199196d454941c45d1b3a323f1433bd6");
                WitnessUtxo.value := 100000 |};
           tapInternalKey := None |}.
Proof.
  apply (@toInput_standard reference_libraries sample_coin testnet sample_key).
  - reflexivity.
  - vm_compute. reflexivity.
Defined.

Lemma toInput_invalid_tweak_witness :
  fails_with
    (toInput (with_tweak sample_coin (Some cancelling_tweak)) testnet generator_key)
    InvalidTweakError /\
  forall d,
    toInput (with_tweak sample_coin (Some cancelling_tweak)) testnet generator_key
    <> Ret d.
Proof.
  apply (@toInput_invalid_tweak reference_libraries
           (with_tweak sample_coin (Some cancelling_tweak)) testnet generator_key
           cancelling_tweak).
  - reflexivity.
  - right. vm_compute. reflexivity.
Defined.

Lemma toInput_parity_independent_witness :
  toInput (with_tweak sample_coin (Some sample_tweak)) testnet (x02 :: tl sample_key) =
  toInput (with_tweak sample_coin (Some sample_tweak)) testnet (x03 :: tl sample_key).
Proof.
  apply (@toInput_parity_independent reference_libraries).
  reflexivity.
Defined.



Lemma toInput_taproot_ignores_address_and_network_witness :
  toInput (with_address (with_tweak sample_coin (Some sample_tweak))
             (str "tb1qw508d6qejxtdg4y5r3zarvary0c5xw7kxpjzsx")) testnet sample_key =
  toInput (with_address (with_tweak sample_coin (Some sample_tweak))
             (str "not an address")) bitcoin sample_key.
Proof.
  apply (@toInput_taproot_ignores_address_and_network reference_libraries
           (with_tweak sample_coin (Some sample_tweak)) _ _ testnet bitcoin
           sample_key sample_tweak).
  reflexivity.
Defined.

(** * Further properties of the code *)

(** ** Input builder: what every call does *)

Lemma xOnly_idempotent (key : Buffer) : xOnly (xOnly key) = xOnly key.
Proof.
  destruct ((length key =? 33)%nat &&
            (first_is key x02 || first_is key x03)) eqn:E.
  - assert (xOnly key = subarray key 1 33) as ->
      by (unfold xOnly; rewrite E; reflexivity).
    apply andb_true_iff in E. destruct E as [E _]. apply Nat.eqb_eq in E.
    apply xOnly_other_length. unfold subarray.
    rewrite length_firstn, length_skipn, E. discriminate.
  - assert (xOnly key = key) as -> by (unfold xOnly; rewrite E; reflexivity).
    unfold xOnly. rewrite E. reflexivity.
Qed.

Lemma first_is_spec (buf : Buffer) (b : byte) :
  first_is buf b = true <-> exists rest, buf = b :: rest.
Proof.
  destruct buf as [|b0 rest]; cbn [first_is].
  - split; [discriminate|]. intros (r & H). discriminate.
  - destruct (Byte.eqb b0 b) eqn:E.
    + apply Byte.byte_dec_bl in E. subst. split; eauto.
    + split; [discriminate|]. intros (r & H). injection H as -> _.
      assert (Byte.eqb b b = true) by (apply Byte.byte_dec_lb; reflexivity).
      congruence.
Qed.

Section EveryCall.

Context {L : Libraries}.

(** X1: whenever [toInput] returns, on either path, the descriptor has
    the coin's txid as hash, its vout as index and its value as the value
    of the witness UTXO. *)
Theorem toInput_carries_outpoint (c : Coin) (net : Network) (key : Buffer)
    (d : Input) :
  toInput c net key = Ret d ->
  hash d = txid c /\ index d = vout c /\
  WitnessUtxo.value (witnessUtxo d) = value c.
Proof.
  unfold toInput. destruct (truthy (tweak c)) as [t|].
  - cbn zeta. destruct (xOnlyPointAddTweak _ _) as [[r|]|e]; cbn [bind];
      try discriminate.
    intros H. injection H as <-. repeat split.
  - destruct (toOutputScript _ _) as [s|e]; cbn [bind]; [|discriminate].
    intros H. injection H as <-. repeat split.
Qed.

(** X2: a descriptor has an internal key exactly when the coin has a
    tweak.  With a tweak the key is the normalised spend key and the script
    starts with 0x51, 0x20; without one the script is the decoder's. *)
Theorem toInput_internal_key (c : Coin) (net : Network) (key : Buffer)
    (d : Input) :
  toInput c net key = Ret d ->
  (exists t r, truthy (tweak c) = Some t /\
     tapInternalKey d = Some (xOnly key) /\
     WitnessUtxo.script (witnessUtxo d) = x51 :: x20 :: xOnlyPubkey r) \/
  (truthy (tweak c) = None /\ tapInternalKey d = None /\
   toOutputScript (address c) net = Ret (WitnessUtxo.script (witnessUtxo d))).
Proof.
  unfold toInput. destruct (truthy (tweak c)) as [t|].
  - cbn zeta. destruct (xOnlyPointAddTweak _ _) as [[r|]|e]; cbn [bind];
      try discriminate.
    intros H. injection H as <-. left. exists t, r. repeat split.
  - destruct (toOutputScript _ _) as [s|e]; cbn [bind]; [|discriminate].
    intros H. injection H as <-. right. repeat split.
Qed.

(** X3: [toInput] throws [e] exactly when the library it calls on its
    path throws [e], or, on the path of a tweak, when the library returns
    null and [e] is the TypeError of destructuring it.  It raises nothing
    else of its own. *)
Theorem toInput_throws_iff (c : Coin) (net : Network) (key : Buffer) (e : exn) :
  toInput c net key = Throw e <->
  (exists t, truthy (tweak c) = Some t /\
     (xOnlyPointAddTweak (xOnly key) (Buffer_from_hex t) = Throw e \/
      (xOnlyPointAddTweak (xOnly key) (Buffer_from_hex t) = Ret None /\
       e = DestructureNull))) \/
  (truthy (tweak c) = None /\ toOutputScript (address c) net = Throw e).
Proof.
  unfold toInput. destruct (truthy (tweak c)) as [t|].
  - cbn zeta.
    destruct (xOnlyPointAddTweak (xOnly key) (Buffer_from_hex t))
      as [[r|]|e'] eqn:E; cbn [bind].
    + split; [discriminate|].
      intros [(t' & Ht & H)|[H _]]; [|discriminate].
      injection Ht as <-. rewrite E in H.
      destruct H as [H|[H _]]; discriminate.
    + split.
      * intros H. injection H as <-. left. exists t. auto.
      * intros [(t' & Ht & H)|[H _]]; [|discriminate].
        injection Ht as <-. rewrite E in H.
        destruct H as [H|[_ ->]]; [discriminate|reflexivity].
    + split.
      * intros H. injection H as ->. left. exists t. auto.
      * intros [(t' & Ht & H)|[H _]]; [|discriminate].
        injection Ht as <-. rewrite E in H.
        destruct H as [H|[H _]]; [|discriminate].
        injection H as ->. reflexivity.
  - destruct (toOutputScript (address c) net) as [s|e'] eqn:E; cbn [bind].
    + split; [discriminate|].
      intros [(t' & H & _)|[_ H]]; discriminate.
    + split.
      * intros H. injection H as ->. right. auto.
      * intros [(t' & H & _)|[_ H]]; [discriminate|].
        injection H as ->. reflexivity.
Qed.

(** X4: without a tweak the result is made of the txid, the vout, the
    value and the address of the coin and of the network, and of nothing
    else: two coins that agree on these give the same result, whatever their
    status and whatever the spend keys. *)
Theorem toInput_standard_reads (c c' : Coin) (net : Network) (key key' : Buffer) :
  truthy (tweak c) = None -> truthy (tweak c') = None ->
  txid c = txid c' -> vout c = vout c' -> value c = value c' ->
  address c = address c' ->
  toInput c net key = toInput c' net key'.
Proof.
  intros Ht Ht' H1 H2 H3 H4. unfold toInput.
  rewrite Ht, Ht', H1, H2, H3, H4. reflexivity.
Qed.

(** X5: with a tweak the result is made of the txid, the vout, the value
    and the tweak of the coin and of the normalised spend key, and of
    nothing else: the status, the address and the network are not read, and
    two keys with the same x-only form give the same result. *)
Theorem toInput_taproot_reads (c c' : Coin) (net net' : Network)
    (key key' : Buffer) (t : jsstring) :
  truthy (tweak c) = Some t -> truthy (tweak c') = Some t ->
  txid c = txid c' -> vout c = vout c' -> value c = value c' ->
  xOnly key = xOnly key' ->
  toInput c net key = toInput c' net' key'.
Proof.
  intros Ht Ht' H1 H2 H3 H4. unfold toInput.
  rewrite Ht, Ht', H1, H2, H3, H4. reflexivity.
Qed.

(** X6: a tweak that is the empty string counts as no tweak: the coin takes
    the standard path, where its address is decoded and the spend key is not
    read. *)
Theorem toInput_empty_tweak (c : Coin) (net : Network) (key key' : Buffer) :
  toInput (with_tweak c (Some [])) net key = toInput (with_tweak c None) net key'.
Proof. unfold toInput. reflexivity. Qed.

(** X7: normalising the key beforehand changes nothing: the x-only key, as a
    descriptor returns it in [tapInternalKey], can be passed again in place
    of the compressed key it came from. *)
Theorem toInput_normalised_key (c : Coin) (net : Network) (key : Buffer) :
  toInput c net (xOnly key) = toInput c net key.
Proof.
  unfold toInput. rewrite xOnly_idempotent. reflexivity.
Qed.

End EveryCall.

(** X8: the normalised key has 32 bytes exactly for a key of 32 bytes and
    for a key of 33 bytes that starts with 0x02 or 0x03; keys of any other
    shape, uncompressed ones among them, are passed on as they are. *)
Theorem xOnly_length (key : Buffer) :
  (length (xOnly key) = 32%nat <->
   length key = 32%nat \/
   (length key = 33%nat /\
    exists x, key = x02 :: x \/ key = x03 :: x)) /\
  (length (xOnly key) <> 32%nat -> xOnly key = key).
Proof.
  unfold xOnly.
  destruct (Nat.eqb_spec (length key) 33) as [E|E]; cbn [andb].
  - destruct (first_is key x02 || first_is key x03) eqn:F.
    + assert (Hlen : length (subarray key 1 33) = 32%nat).
      { unfold subarray. rewrite length_firstn, length_skipn, E. reflexivity. }
      split; [|intros H; contradiction].
      split; [|intros _; exact Hlen].
      intros _. right. split; [exact E|].
      apply orb_true_iff in F.
      destruct F as [F|F]; apply first_is_spec in F; destruct F as (x & ->);
        exists x; auto.
    + split; [|reflexivity].
      split.
      * intros H. lia.
      * intros [H|[_ (x & [-> | ->])]]; [lia|discriminate F|discriminate F].
  - split; [|reflexivity].
    split; [intros H; left; exact H|].
    intros [H|[H _]]; [exact H|contradiction].
Qed.

(** ** Input builder: the text of the tweak *)

Lemma Buffer_from_hex_reads (n : nat) : forall s : jsstring,
  (length s <= n)%nat ->
  (2 * length (Buffer_from_hex s) <= length s)%nat /\
  Forall (fun c => is_hex c = true) (firstn (2 * length (Buffer_from_hex s)) s).
Proof.
  induction n as [|n IH]; intros s Hn.
  - destruct s; [|simpl in Hn; lia]. split; [reflexivity|constructor].
  - destruct s as [|h [|l rest]]; try (split; [simpl; lia|constructor]).
    cbn [Buffer_from_hex]. unfold is_hex.
    destruct (hex_digit (low_byte h)) as [a|] eqn:Eh; [|split; [simpl; lia|constructor]].
    destruct (hex_digit (low_byte l)) as [b|] eqn:El; [|split; [simpl; lia|constructor]].
    destruct (IH rest) as [H1 H2]; [simpl in Hn; lia|].
    cbn [length]. split; [lia|].
    replace (2 * S (length (Buffer_from_hex rest)))%nat
      with (S (S (2 * length (Buffer_from_hex rest)))) by lia.
    cbn [firstn]. constructor; [rewrite Eh; reflexivity|].
    constructor; [rewrite El; reflexivity|exact H2].
Qed.

Lemma Buffer_from_hex_stops (rest : jsstring) :
  stops_hex rest -> Buffer_from_hex rest = [].
Proof.
  destruct rest as [|a [|b r]]; try reflexivity.
  unfold stops_hex, is_hex. cbn [Buffer_from_hex].
  destruct (hex_digit (low_byte a)), (hex_digit (low_byte b)); intros [H|H];
    try discriminate; reflexivity.
Qed.

Lemma Buffer_from_hex_app (n : nat) : forall t rest : jsstring,
  (length t <= n)%nat ->
  Forall (fun c => is_hex c = true) t -> Nat.even (length t) = true ->
  Buffer_from_hex (t ++ rest) = Buffer_from_hex t ++ Buffer_from_hex rest.
Proof.
  induction n as [|n IH]; intros t rest Hn Hhex Heven.
  - destruct t; [reflexivity|simpl in Hn; lia].
  - destruct t as [|h [|l t]]; [reflexivity|discriminate|].
    inversion Hhex as [|? ? Hh Hhex']; subst.
    inversion Hhex' as [|? ? Hl Hhex'']; subst.
    unfold is_hex in Hh, Hl. cbn [app Buffer_from_hex].
    destruct (hex_digit (low_byte h)); [|discriminate].
    destruct (hex_digit (low_byte l)); [|discriminate].
    rewrite IH; [reflexivity| |exact Hhex''|exact Heven].
    simpl in Hn. lia.
Qed.

Lemma Buffer_from_hex_values (n : nat) : forall t t' : jsstring,
  (length t <= n)%nat ->
  map (fun u => hex_digit (low_byte u)) t =
  map (fun u => hex_digit (low_byte u)) t' ->
  Buffer_from_hex t = Buffer_from_hex t'.
Proof.
  induction n as [|n IH]; intros t t' Hn Hmap.
  - destruct t; [|simpl in Hn; lia]. destruct t'; [reflexivity|discriminate].
  - destruct t as [|h [|l t]]; destruct t' as [|h' [|l' t']];
      try discriminate; try reflexivity.
    cbn [map] in Hmap. injection Hmap as Hh Hl Hrest.
    cbn [Buffer_from_hex]. rewrite Hh, Hl.
    destruct (hex_digit (low_byte h')); [|reflexivity].
    destruct (hex_digit (low_byte l')); [|reflexivity].
    rewrite (IH t t'); [reflexivity| |exact Hrest].
    simpl in Hn. lia.
Qed.

Section TweakText.

Context {L : Libraries}.

(** tiny-secp256k1 takes a tweak of 32 bytes and nothing else. *)
Hypothesis tweak_is_32_bytes : forall pk tw r,
  xOnlyPointAddTweak pk tw = Ret (Some r) -> length tw = 32%nat.

(** X9: for a coin with a tweak, [toInput] returns a descriptor only if the
    tweak has 64 characters at least and the first 64 are read as
    hexadecimal digits, that is, have the low byte of one. *)
Theorem toInput_taproot_needs_hex_tweak (c : Coin) (net : Network)
    (key : Buffer) (t : jsstring) (d : Input) :
  truthy (tweak c) = Some t ->
  toInput c net key = Ret d ->
  (64 <= length t)%nat /\ Forall (fun u => is_hex u = true) (firstn 64 t).
Proof.
  intros Ht. unfold toInput. rewrite Ht. cbn zeta.
  destruct (xOnlyPointAddTweak (xOnly key) (Buffer_from_hex t))
    as [[r|]|e] eqn:E; cbn [bind]; try discriminate.
  intros _. apply tweak_is_32_bytes in E.
  destruct (Buffer_from_hex_reads (length t) t (le_n _)) as [H1 H2].
  rewrite E in H1, H2. split; [lia|exact H2].
Qed.

(** X10: what follows the hexadecimal digits of a tweak is not read: a
    tweak made of an even number of characters read as digits gives the same
    result with any text behind it that starts with a pair not read as two
    digits. *)
Theorem toInput_tweak_tail_ignored (c : Coin) (net : Network) (key : Buffer)
    (t rest : jsstring) :
  t <> [] ->
  Forall (fun u => is_hex u = true) t -> Nat.even (length t) = true ->
  stops_hex rest ->
  toInput (with_tweak c (Some (t ++ rest))) net key =
  toInput (with_tweak c (Some t)) net key.
Proof.
  intros Hne Hhex Heven Hstop.
  destruct t as [|u t]; [contradiction|].
  unfold toInput. cbn [with_tweak tweak truthy app txid vout value].
  change (u :: t ++ rest) with ((u :: t) ++ rest).
  rewrite (Buffer_from_hex_app (length (u :: t))) by auto.
  rewrite (Buffer_from_hex_stops rest Hstop), app_nil_r. reflexivity.
Qed.

(** X11: only the digit values of the low bytes of a tweak count: two
    tweaks whose characters are read as the same hexadecimal values, such
    as the spellings of one number in upper and in lower case, give the same
    result. *)
Theorem toInput_tweak_case (c : Coin) (net : Network) (key : Buffer)
    (t t' : jsstring) :
  t <> [] ->
  map (fun u => hex_digit (low_byte u)) t =
  map (fun u => hex_digit (low_byte u)) t' ->
  toInput (with_tweak c (Some t)) net key =
  toInput (with_tweak c (Some t')) net key.
Proof.
  intros Hne Hmap.
  destruct t as [|u t]; [contradiction|].
  destruct t' as [|u' t']; [discriminate|].
  unfold toInput. cbn [with_tweak tweak truthy txid vout value].
  rewrite (Buffer_from_hex_values (length (u :: t)) (u :: t) (u' :: t'))
    by auto.
  reflexivity.
Qed.

End TweakText.

Lemma reference_tweak_is_32_bytes (pk tw : Buffer) (r : XOnlyPointAddTweakResult) :
  Secp256k1.xOnlyPointAddTweak pk tw = Ret (Some r) -> length tw = 32%nat.
Proof.
  unfold Secp256k1.xOnlyPointAddTweak.
  destruct (length pk =? 32)%nat; cbn [negb]; [|discriminate].
  destruct (Secp256k1.isTweak tw) eqn:E; cbn [negb]; [|discriminate].
  intros _. unfold Secp256k1.isTweak in E.
  apply andb_true_iff in E. destruct E as [E _].
  apply Nat.eqb_eq. exact E.
Qed.

(** ** Fee estimator *)

(** X12: the rounding of the witness size in [estimateSpendingSize],
    [((size + factor - 1) / factor) | 0], is the integer ceiling of
    [size / factor] for every size and every positive factor whose sum fits
    in 31 bits. *)
Theorem div_or0_is_ceiling (size factor : Z) :
  0 <= size -> 0 < factor -> size + factor - 1 < 2 ^ 31 ->
  div_or0 (size + factor - 1) factor = ceil_div size factor.
Proof.
  intros Hs Hf Hb. unfold div_or0, ceil_div, to_int32.
  destruct (Z.eqb_spec factor 0) as [E|_]; [lia|].
  rewrite Z.quot_div_nonneg by lia.
  assert (Hq : 0 <= (size + factor - 1) / factor < 2 ^ 31).
  { split; [apply Z.div_pos; lia|].
    apply Z.div_lt_upper_bound; nia. }
  rewrite Z.mod_small by lia.
  assert (Hceil : (size + factor - 1) / factor = - (- size / factor)).
  { pose proof (Z.div_mod (size + factor - 1) factor ltac:(lia)) as H1.
    pose proof (Z.mod_pos_bound (size + factor - 1) factor Hf) as B1.
    pose proof (Z.div_mod (- size) factor ltac:(lia)) as H2.
    pose proof (Z.mod_pos_bound (- size) factor Hf) as B2.
    nia. }
  lia.
Qed.


(** ** Codec *)

(** X15: [fromJSON] checks nothing of what it reads: the text of an
    object gives back that object, property for property and in the same
    order, whatever its keys and the types of its values, coin or not.  This
    is said of the objects whose text is read back as it was written: no key
    of the object, or of an object inside it, is an array index, the object
    has no property [__proto__] of its own, and every integer in it is one
    that a double holds exactly. *)
Theorem fromJSON_returns_any_object (ps : list (jsstring * jsval)) :
  plain (JObj ps) ->
  no_index_keys (JObj ps) = true ->
  safe_integers (JObj ps) = true ->
  ~ In (str "__proto__") (map fst ps) ->
  fromJSON (stringify (JObj ps)) = Ret ps.
Proof.
  intros Hp Ho _ Hproto. unfold fromJSON.
  rewrite JSON_parse_stringify by assumption.
  unfold Coin_new, Object_assign, own_properties. f_equal.
  apply (assign_fresh ps []).
  - inversion Hp; assumption.
  - apply no_index_keys_members in Ho.
    eapply Forall_impl; [|exact Ho]. intros kv H. apply H.
  - exact Hproto.
Qed.

(** X16: the text of a value that has no property of its own, such as
    null, a boolean, a number or an empty object, array or string, is
    accepted too, and gives a coin without any field. *)
Theorem fromJSON_of_propertyless_value (v : jsval) :
  plain v -> own_properties v = [] -> fromJSON (stringify v) = Ret [].
Proof.
  intros Hp Hown. unfold fromJSON. rewrite JSON_parse_stringify.
  - unfold Coin_new, Object_assign. rewrite Hown. reflexivity.
  - exact Hp.
  - destruct v as [ | | | | | | l | ps ]; try reflexivity.
    + destruct l; [reflexivity|discriminate Hown].
    + cbn [own_properties] in Hown. rewrite Hown. reflexivity.
Qed.

Lemma hex_char_printable (n : N) : (32 <= hex_char n)%N.
Proof. unfold hex_char. destruct (N.ltb_spec n 10); lia. Qed.

Lemma escape_unit_printable (c : N) :
  Forall (fun u => (32 <= u)%N) (escape_unit c).
Proof.
  unfold escape_unit.
  repeat match goal with
  | |- context [(c =? ?k)%N] =>
      destruct (N.eqb_spec c k);
      [norm_ch; repeat constructor; discriminate|]
  end.
  assert (Hu : Forall (fun u => (32 <= u)%N) (unicode_escape c)).
  { unfold unicode_escape. norm_ch.
    repeat (constructor; try apply hex_char_printable; try discriminate). }
  destruct (N.ltb_spec c 32); [exact Hu|].
  destruct (is_high_surrogate c || is_low_surrogate c); [exact Hu|].
  repeat constructor. assumption.
Qed.

Lemma escape_printable (n : nat) : forall s : jsstring,
  (length s <= n)%nat -> Forall (fun u => (32 <= u)%N) (escape s).
Proof.
  induction n as [|n IH]; intros s Hn.
  - destruct s; [constructor|simpl in Hn; lia].
  - destruct s as [|c s]; [constructor|]. simpl in Hn. cbn [escape].
    destruct (is_high_surrogate c) eqn:Hc.
    + destruct s as [|d s]; [apply escape_unit_printable|].
      destruct (is_low_surrogate d) eqn:Hd.
      * unfold is_high_surrogate in Hc. unfold is_low_surrogate in Hd.
        apply andb_true_iff in Hc, Hd. rewrite !N.leb_le in Hc, Hd.
        constructor; [lia|]. constructor; [lia|].
        apply IH. simpl in Hn. lia.
      * apply Forall_app. split; [apply escape_unit_printable|].
        apply IH. lia.
    + apply Forall_app. split; [apply escape_unit_printable|].
      apply IH. lia.
Qed.

Lemma quote_printable (s : jsstring) : Forall (fun u => (32 <= u)%N) (quote s).
Proof.
  unfold quote. constructor; [discriminate|].
  apply Forall_app. split; [apply (escape_printable (length s)); lia|].
  repeat constructor. discriminate.
Qed.

Lemma number_to_string_printable (n : Z) :
  Forall (fun u => (32 <= u)%N) (number_to_string n).
Proof.
  assert (Hd : forall m, Forall (fun u => (32 <= u)%N) (digits m)).
  { intros m. destruct (N.eq_dec m 0) as [->|Hm].
    - repeat constructor. discriminate.
    - destruct (digits_shape m Hm) as (d & r & -> & Hd & Hr).
      constructor; [lia|].
      eapply Forall_impl; [|exact Hr]. intros a Ha.
      apply is_digit_spec in Ha. lia. }
  destruct n; unfold number_to_string; try apply Hd.
  constructor; [norm_ch; discriminate|apply Hd].
Qed.

Lemma join_printable (l : list jsstring) :
  Forall (Forall (fun u => (32 <= u)%N)) l ->
  Forall (fun u => (32 <= u)%N) (join [ch ","] l).
Proof.
  induction 1 as [|x l Hx Hl IH]; [constructor|].
  destruct l as [|y l]; [exact Hx|].
  change (join [ch ","] (x :: y :: l)) with (x ++ [ch ","] ++ join [ch ","] (y :: l)).
  apply Forall_app. split; [exact Hx|].
  constructor; [norm_ch; discriminate|exact IH].
Qed.

Lemma stringify_printable (n : nat) : forall v,
  plain v -> (weight v <= n)%nat -> Forall (fun u => (32 <= u)%N) (stringify v).
Proof.
  induction n as [|n IH]; intros v Hv Hn.
  { pose proof (weight_pos v). lia. }
  destruct Hv as [ | [ | ] | z | s | l Hl | ps Hnd Hps ].
  - repeat constructor; discriminate.
  - repeat constructor; discriminate.
  - repeat constructor; discriminate.
  - apply number_to_string_printable.
  - apply quote_printable.
  - cbn [stringify weight] in *. constructor; [norm_ch; discriminate|].
    apply Forall_app. split; [|repeat constructor; norm_ch; discriminate].
    apply join_printable. apply Forall_map. apply Forall_forall.
    intros x Hx. apply IH.
    + eapply Forall_forall in Hl; eauto.
    + pose proof (list_sum_In _ weight l x Hx). lia.
  - cbn [stringify weight] in *. constructor; [norm_ch; discriminate|].
    apply Forall_app. split; [|repeat constructor; norm_ch; discriminate].
    rewrite members_plain by exact Hps.
    apply join_printable. apply Forall_map. apply Forall_forall.
    intros x Hx. unfold member. apply Forall_app.
    split; [apply quote_printable|].
    constructor; [norm_ch; discriminate|]. apply IH.
    + eapply Forall_forall in Hps; eauto.
    + pose proof (list_sum_In _ (fun kv => weight (snd kv)) ps x Hx).
      cbn beta in *. lia.
Qed.

(** X17: the text of a coin holds no control character, line breaks
    included, whatever characters the strings of the coin hold: they are
    written as escapes.  A record is one line of text. *)
Theorem toJSON_one_line (c : Coin) :
  Forall (fun u => (32 <= u)%N) (toJSON c) /\
  ~ In 10%N (toJSON c) /\ ~ In 13%N (toJSON c).
Proof.
  assert (H : Forall (fun u => (32 <= u)%N) (toJSON c)).
  { rewrite toJSON_instance_of.
    apply (stringify_printable (weight (JObj (instance_of c)))).
    - apply instance_of_plain.
    - lia. }
  split; [exact H|].
  rewrite Forall_forall in H.
  split; intros Hin; apply H in Hin; lia.
Qed.

(** ** Command line *)

Lemma expect_spec (w : jsstring) : forall s r,
  expect w s = Some r <-> s = w ++ r.
Proof.
  induction w as [|a w IH]; intros s r; cbn [expect app].
  - split; [intros H; injection H as ->; reflexivity|intros ->; reflexivity].
  - destruct s as [|b s]; [split; discriminate|].
    destruct (N.eqb_spec a b) as [->|Hab].
    + rewrite IH. split; [intros ->; reflexivity|intros H; injection H as ->; reflexivity].
    + split; [discriminate|]. intros H. injection H as H _. congruence.
Qed.

Lemma startsWith_spec (s w : jsstring) :
  Cli.startsWith s w = true <-> exists r, s = w ++ r.
Proof.
  unfold Cli.startsWith. destruct (expect w s) as [r|] eqn:E.
  - apply expect_spec in E. split; eauto.
  - split; [discriminate|]. intros (r & H). apply expect_spec in H. congruence.
Qed.

(** X19: the [--network] option is refused, with 'Unsupported network:'
    and the name, exactly when it is a non-empty name other than main,
    testnet and regtest; the name mainnet, which the description of the
    option gives, is among the refused ones. *)
Theorem networkClientOptions_fails_iff (o : option jsstring) (m : jsstring) :
  (Cli.networkClientOptions o = Cli.Failed m <->
   exists n, o = Some n /\ n <> [] /\
     n <> str "main" /\ n <> str "testnet" /\ n <> str "regtest" /\
     m = str "Unsupported network: " ++ n) /\
  Cli.networkClientOptions (Some (str "mainnet")) =
    Cli.Failed (str "Unsupported network: mainnet").
Proof.
  split; [|reflexivity].
  unfold Cli.networkClientOptions.
  assert (Hdef : forall n, truthy o = Some n ->
            o = Some n /\ n <> []).
  { intros n. destruct o as [[|u t]|]; cbn [truthy]; try discriminate.
    intros H. injection H as <-. split; [reflexivity|discriminate]. }
  destruct (truthy o) as [n|] eqn:Eo.
  - destruct (Hdef n eq_refl) as [-> Hne]. unfold Cli.esploraUrl.
    destruct (jsstring_eqb_spec n (str "main")) as [E1|E1].
    { split; [discriminate|]. intros (n' & H & _ & H1 & _).
      injection H as <-. contradiction. }
    destruct (jsstring_eqb_spec n (str "testnet")) as [E2|E2].
    { split; [discriminate|]. intros (n' & H & _ & _ & H2 & _).
      injection H as <-. contradiction. }
    destruct (jsstring_eqb_spec n (str "regtest")) as [E3|E3].
    { split; [discriminate|]. intros (n' & H & _ & _ & _ & H3 & _).
      injection H as <-. contradiction. }
    split.
    + intros H. injection H as <-. exists n. repeat split; assumption.
    + intros (n' & H & _ & _ & _ & _ & ->). injection H as <-. reflexivity.
  - split; [discriminate|].
    intros (n & -> & Hne & _). destruct n; [contradiction|discriminate].
Qed.

(** X20: the options of the client, network by network.  The client is
    built exactly in three cases: for the name testnet, and for an absent or
    empty name, which stands for testnet, it gets https, blockstream.info
    and testnet; for the name main it gets https, blockstream.info and main;
    for the name regtest it gets http, 127.0.0.1:8094 and regtest.  The path
    of the URL is left behind, so main and testnet differ in the name of the
    network only. *)
Theorem networkClientOptions_endpoint (o : option jsstring)
    (cfg : Cli.EsploraClientOptions) :
  Cli.networkClientOptions o = Cli.Done cfg <->
  ((o = None \/ o = Some [] \/ o = Some (str "testnet")) /\
   cfg = Cli.mkOptions (str "https") (str "blockstream.info") (str "testnet")) \/
  (o = Some (str "main") /\
   cfg = Cli.mkOptions (str "https") (str "blockstream.info") (str "main")) \/
  (o = Some (str "regtest") /\
   cfg = Cli.mkOptions (str "http") (str "127.0.0.1:8094") (str "regtest")).
Proof.
  split.
  - destruct o as [[|u t]|].
    + intros H. injection H as <-. left. auto.
    + unfold Cli.networkClientOptions. cbn [truthy]. unfold Cli.esploraUrl.
      destruct (jsstring_eqb_spec (u :: t) (str "main")) as [E1|E1].
      { rewrite E1. intros H. injection H as <-. right. left. auto. }
      destruct (jsstring_eqb_spec (u :: t) (str "testnet")) as [E2|E2].
      { rewrite E2. intros H. injection H as <-. left. auto. }
      destruct (jsstring_eqb_spec (u :: t) (str "regtest")) as [E3|E3].
      { rewrite E3. intros H. injection H as <-. right. right. auto. }
      discriminate.
    + intros H. injection H as <-. left. auto.
  - intros [[[->|[->| ->]] ->]|[[-> ->]|[-> ->]]]; reflexivity.
Qed.

Lemma silent_prefix (a : jsstring) :
  Cli.startsWith a (str "sp1") || Cli.startsWith a (str "tsp1") = true <->
  exists r, a = str "sp1" ++ r \/ a = str "tsp1" ++ r.
Proof.
  rewrite orb_true_iff, !startsWith_spec. split.
  - intros [(r & H)|(r & H)]; exists r; auto.
  - intros (r & [H|H]); [left|right]; exists r; exact H.
Qed.

(** X21: the [send] command calls a wallet method only when an address and
    an amount are given, the directory and the database of the wallet are
    made, the network is one the client is built for, and the wallet opens;
    then it calls [sendToSilentAddress] exactly for an address that starts
    with sp1 or tsp1, in lower case, and [send] for every other address.
    With either option absent or empty it returns at once; in every other
    case it fails with the message of the first step that threw.  So with
    the network mainnet, which the description of the option offers, no
    method is called whatever the address. *)
Theorem send_action_routes (store_error open_error : option jsstring)
    (network address amount : option jsstring) :
  (forall a,
     Cli.send_action store_error open_error network address amount =
       Cli.Calls (Cli.sendToSilentAddress a) <->
     truthy address = Some a /\
     Cli.ready store_error open_error network amount /\
     exists r, a = str "sp1" ++ r \/ a = str "tsp1" ++ r) /\
  (forall a,
     Cli.send_action store_error open_error network address amount =
       Cli.Calls (Cli.send a) <->
     truthy address = Some a /\
     Cli.ready store_error open_error network amount /\
     ~ exists r, a = str "sp1" ++ r \/ a = str "tsp1" ++ r) /\
  (Cli.send_action store_error open_error network address amount =
     Cli.Required <->
   truthy address = None \/ truthy amount = None) /\
  (forall m,
     Cli.send_action store_error open_error network address amount =
       Cli.FailedToSend m <->
     truthy address <> None /\ truthy amount <> None /\
     (store_error = Some m \/
      store_error = None /\
      (Cli.networkClientOptions network = Cli.Failed m \/
       (exists cfg, Cli.networkClientOptions network = Cli.Done cfg) /\
       open_error = Some m))) /\
  (forall a, truthy address = Some a -> truthy amount <> None ->
     store_error = None ->
     Cli.send_action store_error open_error (Some (str "mainnet")) address amount =
     Cli.FailedToSend (str "Unsupported network: mainnet")).
Proof.
  unfold Cli.send_action, Cli.ready.
  destruct (truthy address) as [a0|]; [destruct (truthy amount) as [am|]|].
  - destruct store_error as [se|].
    { split; [|split; [|split; [|split]]].
      - intros a. split; [discriminate|]. intros (_ & (_ & E & _) & _). discriminate.
      - intros a. split; [discriminate|]. intros (_ & (_ & E & _) & _). discriminate.
      - split; [discriminate|]. intros [E|E]; discriminate.
      - intros m. split.
        + intros E. injection E as <-.
          split; [discriminate|]. split; [discriminate|]. left. reflexivity.
        + intros (_ & _ & [E|[E _]]); [|discriminate]. injection E as <-. reflexivity.
      - intros a _ _ E. discriminate. }
    destruct (Cli.networkClientOptions network) as [cfg|nm].
    2:{ split; [|split; [|split; [|split]]].
        - intros a. split; [discriminate|].
          intros (_ & (_ & _ & (c & E) & _) & _). discriminate.
        - intros a. split; [discriminate|].
          intros (_ & (_ & _ & (c & E) & _) & _). discriminate.
        - split; [discriminate|]. intros [E|E]; discriminate.
        - intros m. split.
          + intros E. injection E as <-.
            split; [discriminate|]. split; [discriminate|].
            right. split; [reflexivity|]. left. reflexivity.
          + intros (_ & _ & [E|[_ [E|[(c & E) _]]]]); try discriminate.
            injection E as <-. reflexivity.
        - intros a _ _ _. reflexivity. }
    destruct open_error as [oe|].
    { split; [|split; [|split; [|split]]].
      - intros a. split; [discriminate|]. intros (_ & (_ & _ & _ & E) & _). discriminate.
      - intros a. split; [discriminate|]. intros (_ & (_ & _ & _ & E) & _). discriminate.
      - split; [discriminate|]. intros [E|E]; discriminate.
      - intros m. split.
        + intros E. injection E as <-.
          split; [discriminate|]. split; [discriminate|].
          right. split; [reflexivity|]. right.
          split; [exists cfg; reflexivity|reflexivity].
        + intros (_ & _ & [E|[_ [E|[_ E]]]]); try discriminate.
          injection E as <-. reflexivity.
      - intros a _ _ _. reflexivity. }
    pose proof (silent_prefix a0) as Hs.
    assert (Hready : Some am <> None /\ @None jsstring = None /\
              (exists c, Cli.Done cfg = Cli.Done c) /\ @None jsstring = None).
    { split; [discriminate|]. split; [reflexivity|].
      split; [exists cfg; reflexivity|reflexivity]. }
    destruct (Cli.startsWith a0 (str "sp1") || Cli.startsWith a0 (str "tsp1")).
    + assert (Hex : exists r, a0 = str "sp1" ++ r \/ a0 = str "tsp1" ++ r)
        by (apply Hs; reflexivity).
      split; [|split; [|split; [|split]]].
      * intros a. split.
        -- intros E. injection E as <-. split; [reflexivity|]. split; assumption.
        -- intros (E & _ & _). injection E as <-. reflexivity.
      * intros a. split; [discriminate|].
        intros (E & _ & Hn). injection E as <-. contradiction.
      * split; [discriminate|]. intros [E|E]; discriminate.
      * intros m. split; [discriminate|].
        intros (_ & _ & [E|[_ [E|[_ E]]]]); discriminate.
      * intros a _ _ _. reflexivity.
    + assert (Hex : ~ exists r, a0 = str "sp1" ++ r \/ a0 = str "tsp1" ++ r).
      { intros H. apply Hs in H. discriminate. }
      split; [|split; [|split; [|split]]].
      * intros a. split; [discriminate|].
        intros (E & _ & Hr). injection E as <-. contradiction.
      * intros a. split.
        -- intros E. injection E as <-. split; [reflexivity|]. split; assumption.
        -- intros (E & _ & _). injection E as <-. reflexivity.
      * split; [discriminate|]. intros [E|E]; discriminate.
      * intros m. split; [discriminate|].
        intros (_ & _ & [E|[_ [E|[_ E]]]]); discriminate.
      * intros a _ _ _. reflexivity.
  - split; [|split; [|split; [|split]]].
    + intros a. split; [discriminate|]. intros (_ & (E & _) & _). contradiction.
    + intros a. split; [discriminate|]. intros (_ & (E & _) & _). contradiction.
    + split; auto.
    + intros m. split; [discriminate|]. intros (_ & E & _). contradiction.
    + intros a _ E. contradiction.
  - split; [|split; [|split; [|split]]].
    + intros a. split; [discriminate|]. intros (E & _). discriminate.
    + intros a. split; [discriminate|]. intros (E & _). discriminate.
    + split; auto.
    + intros m. split; [discriminate|]. intros (E & _). contradiction.
    + intros a E. discriminate.
Qed.

(** ** Concrete runs of the further properties *)

Lemma sample_input_run : toInput sample_coin testnet sample_key = Ret sample_input.
Proof. vm_compute. reflexivity. Qed.

Lemma sample_taproot_input_run :
  toInput (with_tweak sample_coin (Some sample_tweak)) testnet sample_key =
  Ret sample_taproot_input.
Proof. vm_compute. reflexivity. Qed.

Lemma toInput_carries_outpoint_witness :
  hash sample_taproot_input = txid (with_tweak sample_coin (Some sample_tweak)) /\
  index sample_taproot_input = vout (with_tweak sample_coin (Some sample_tweak)) /\
  WitnessUtxo.value (witnessUtxo sample_taproot_input) =
    value (with_tweak sample_coin (Some sample_tweak)).
Proof.
  apply (@toInput_carries_outpoint reference_libraries
           (with_tweak sample_coin (Some sample_tweak)) testnet sample_key
           sample_taproot_input).
  exact sample_taproot_input_run.
Defined.

Lemma toInput_internal_key_witness :
  (exists t r, truthy (tweak sample_coin) = Some t /\
     tapInternalKey sample_input = Some (xOnly sample_key) /\
     WitnessUtxo.script (witnessUtxo sample_input) = x51 :: x20 :: xOnlyPubkey r) \/
  (truthy (tweak sample_coin) = None /\ tapInternalKey sample_input = None /\
   toOutputScript (address sample_coin) testnet =
     Ret (WitnessUtxo.script (witnessUtxo sample_input))).
Proof.
  apply (@toInput_internal_key reference_libraries sample_coin testnet sample_key
           sample_input).
  exact sample_input_run.
Defined.

Lemma toInput_standard_reads_witness :
  toInput sample_coin testnet [] =
  toInput (with_status sample_coin (mkStatus true (Some 800000) None (Some 1700000000)))
    testnet sample_key.
Proof.
  refine (@toInput_standard_reads reference_libraries sample_coin
            (with_status sample_coin
               (mkStatus true (Some 800000) None (Some 1700000000)))
            testnet [] sample_key _ _ _ _ _ _); vm_compute; reflexivity.
Defined.

Lemma toInput_taproot_reads_witness :
  toInput (with_tweak sample_coin (Some sample_tweak)) testnet sample_key =
  toInput
    (with_status (with_address (with_tweak sample_coin (Some sample_tweak))
                    (str "not an address"))
       (mkStatus true (Some 800000) None None))
    bitcoin (tl sample_key).
Proof.
  refine (@toInput_taproot_reads reference_libraries
            (with_tweak sample_coin (Some sample_tweak))
            (with_status (with_address (with_tweak sample_coin (Some sample_tweak))
                            (str "not an address"))
               (mkStatus true (Some 800000) None None))
            testnet bitcoin sample_key (tl sample_key) sample_tweak
            _ _ _ _ _ _); vm_compute; reflexivity.
Defined.

Lemma toInput_taproot_needs_hex_tweak_witness :
  (64 <= length sample_tweak)%nat /\
  Forall (fun u => is_hex u = true) (firstn 64 sample_tweak).
Proof.
  apply (@toInput_taproot_needs_hex_tweak reference_libraries
           reference_tweak_is_32_bytes
           (with_tweak sample_coin (Some sample_tweak)) testnet sample_key
           sample_tweak sample_taproot_input).
  - reflexivity.
  - exact sample_taproot_input_run.
Defined.

Lemma toInput_tweak_tail_ignored_witness :
  toInput (with_tweak sample_coin (Some (sample_tweak ++ str "zz and more")))
    testnet sample_key =
  toInput (with_tweak sample_coin (Some sample_tweak)) testnet sample_key.
Proof.
  apply (@toInput_tweak_tail_ignored reference_libraries).
  - discriminate.
  - apply Forall_forall, forallb_forall. reflexivity.
  - reflexivity.
  - left. reflexivity.
Defined.

Lemma toInput_tweak_case_witness :
  toInput (with_tweak sample_coin (Some sample_tweak)) testnet sample_key =
  toInput (with_tweak sample_coin (Some sample_tweak_upper)) testnet sample_key.
Proof.
  apply (@toInput_tweak_case reference_libraries).
  - discriminate.
  - reflexivity.
Defined.

Lemma div_or0_is_ceiling_witness :
  div_or0 (109 + 4 - 1) 4 = ceil_div 109 4 /\
  div_or0 (109 + 8 - 1) 8 = ceil_div 109 8.
Proof.
  split; apply div_or0_is_ceiling; lia.
Defined.

Lemma fromJSON_returns_any_object_witness :
  fromJSON (stringify (JObj [(str "vout", JStr (str "seven"));
                             (str "colour", JArr [JNull; JNum (-1)])])) =
  Ret [(str "vout", JStr (str "seven"));
       (str "colour", JArr [JNull; JNum (-1)])].
Proof.
  apply fromJSON_returns_any_object.
  - apply plain_obj.
    + apply NoDup_keys. reflexivity.
    + repeat constructor.
  - reflexivity.
  - reflexivity.
  - intros H. repeat (destruct H as [H|H]; [discriminate H|]). exact H.
Defined.

Lemma fromJSON_of_propertyless_value_witness :
  fromJSON (stringify (JNum 21000000)) = Ret [] /\
  fromJSON (stringify JNull) = Ret [] /\
  fromJSON (stringify (JArr [])) = Ret [].
Proof.
  split; [|split]; apply fromJSON_of_propertyless_value;
    try reflexivity; constructor; constructor.
Defined.

(** Runs of the command line: the client of the default network, a silent
    payment, a payment to an address, the network name of the option's
    description, and a run without an amount. *)
Example send_runs :
  Cli.networkClientOptions None = Cli.Done Cli.default_options /\
  Cli.send_action None None (Some (str "testnet")) (Some (str "tsp1qqexample"))
    (Some (str "0.1")) =
    Cli.Calls (Cli.sendToSilentAddress (str "tsp1qqexample")) /\
  Cli.send_action None None (Some (str "regtest")) (Some (str "bcrt1qexample"))
    (Some (str "0.1")) =
    Cli.Calls (Cli.send (str "bcrt1qexample")) /\
  Cli.send_action None None (Some (str "mainnet")) (Some (str "sp1qqexample"))
    (Some (str "0.1")) =
    Cli.FailedToSend (str "Unsupported network: mainnet") /\
  Cli.send_action None None (Some (str "testnet")) (Some (str "sp1qqexample"))
    None = Cli.Required.
Proof. repeat split. Qed.

(** The tweak as [Buffer.from] reads it: the full-width letters U+FF42 and
    U+FF45 have the low bytes of b and e and are read as these; reading stops
    at the first pair that is not two digits. *)
Example Buffer_from_hex_low_bytes :
  Buffer_from_hex [65346%N; 65349%N] = [xbe] /\
  Buffer_from_hex (str "be") = [xbe] /\
  Buffer_from_hex (str "bexy01") = [xbe] /\
  Buffer_from_hex (str "xbe") = [].
Proof. repeat split. Qed.
